(** * Suboptimal-firewall: admission control and backend selection

    A shallow embedding of [main.go] (the rate limiter: [sessionCheck],
    [limitCheck], [cleanUp], [startTimer]) and of [LoadB/lb.go] (the load
    balancer: [GetNextAvailableServer], [GetLeastConnServer], [ServeProxy],
    [SimpleServer]), with the properties of the specification stated over
    them. *)

From Stdlib Require Import ZArith List Lia Bool.
From stdpp Require Import base option gmap strings list fin_maps.

Open Scope Z_scope.

(** ** main.go: the rate limiter *)

Module Limiter.

(** The three package variables of [main.go].  Durations and instants are
    counted in nanoseconds, as [time.Duration] and the monotonic clock do. *)
Record Config := {
  rateLimit : Z;
  trackingDuration : Z;
  brownListedDuration : Z
}.

Definition second : Z := 1000000000.

Definition defaults : Config :=
  {| rateLimit := 20;
     trackingDuration := 20 * second;
     brownListedDuration := 25 * second |}.

(** The two channels a [rateLimiter] holds. *)
Inductive chan := blacklistCh | unblockCh.

#[export] Instance chan_eq_dec : EqDecision chan.
Proof. solve_decision. Defined.

(** What a call does besides changing the maps, in program order: the mutex
    operations, the channel sends [ch <- ip], the statement
    [go startTimer(ip, ch, d)] and [time.Sleep(d)].  Log lines are left out. *)
Inductive event :=
| EvLock
| EvUnlock
| EvSend (c : chan) (ip : string)
| EvGo (ip : string) (c : chan) (d : Z)
| EvSleep (d : Z).

(** [type rateLimiter struct]: the three maps. *)
Record rateLimiter := {
  requests : gmap string (list Z);
  blackList : gmap string bool;
  brownList : gmap string Z
}.

(** [newRateLimiter]: three empty maps. *)
Definition newRateLimiter : rateLimiter :=
  {| requests := ∅; blackList := ∅; brownList := ∅ |}.

(** Reading a Go map at an absent key gives the zero value. *)
Definition history (rl : rateLimiter) (ip : string) : list Z :=
  default [] (requests rl !! ip).

Definition blackListed (rl : rateLimiter) (ip : string) : bool :=
  default false (blackList rl !! ip).

(** The loop [for _, t := range ts { if t.After(cutoff) { append } }]. *)
Definition prune (cutoff : Z) (ts : list Z) : list Z :=
  List.filter (fun t => cutoff <? t) ts.

(** [-d] for a [time.Duration], a 64-bit integer: the smallest value is its
    own negation, every other value has the negation of the integers. *)
Definition negDuration (d : Z) : Z := if d =? - 2 ^ 63 then d else - d.

(** [now.Add(-trackingDuration)]. *)
Definition cutoff (cfg : Config) (now : Z) : Z :=
  now + negDuration (trackingDuration cfg).

(** Lines 57-68 and 96-107: append [now], then keep what is after
    [now.Add(-trackingDuration)]. *)
Definition window (cfg : Config) (now : Z) (hist : list Z) : list Z :=
  prune (cutoff cfg now) (hist ++ [now]).

(** [len(rl.requests[ip]) > rateLimit]. *)
Definition overLimit (cfg : Config) (ts : list Z) : bool :=
  rateLimit cfg <? Z.of_nat (length ts).

(** [rl.mu.Lock(); defer rl.mu.Unlock()] around a body: the lock is taken
    first and released when the function returns, after everything the body
    did. *)
Definition withLock {A : Type} (body : A * rateLimiter * list event)
  : A * rateLimiter * list event :=
  let '(a, rl, evs) := body in (a, rl, EvLock :: evs ++ [EvUnlock]).

(** [startTimer(ip, unblockCh, duration)]: it is handed a channel and no
    rate limiter. *)
Definition startTimer (ip : string) (ch : chan) (duration : Z) : list event :=
  [EvSleep duration; EvSend ch ip].

(** Lines 57-79 of [sessionCheck], entered when the address is not held by the
    brown list. *)
Definition sessionWindow (cfg : Config) (now : Z) (ip : string) (rl : rateLimiter)
  : bool * rateLimiter * list event :=
  let filteredRequests := window cfg now (history rl ip) in
  let reqs := <[ip := filteredRequests]> (requests rl) in
  if overLimit cfg filteredRequests then
    (false,
     {| requests := reqs;
        blackList := blackList rl;
        brownList := <[ip := now + brownListedDuration cfg]> (brownList rl) |},
     [EvSend blacklistCh ip; EvGo ip unblockCh (brownListedDuration cfg)])
  else
    (true,
     {| requests := reqs; blackList := blackList rl; brownList := brownList rl |},
     []).

(** [sessionCheck].  [t0] is the clock reading of line 49 (taken only when the
    address is on the brown list), [now] the reading of line 57. *)
Definition sessionCheck (cfg : Config) (t0 now : Z) (ip : string) (rl : rateLimiter)
  : bool * rateLimiter * list event :=
  withLock
    match brownList rl !! ip with
    | Some endTime =>
        if t0 <? endTime then (false, rl, [])
        else
          sessionWindow cfg now ip
            {| requests := requests rl;
               blackList := blackList rl;
               brownList := delete ip (brownList rl) |}
    | None => sessionWindow cfg now ip rl
    end.

(** [limitCheck]. *)
Definition limitCheck (cfg : Config) (now : Z) (ip : string) (rl : rateLimiter)
  : bool * rateLimiter * list event :=
  withLock
    (if blackListed rl ip then (false, rl, [])
     else
       let filteredRequests := window cfg now (history rl ip) in
       let reqs := <[ip := filteredRequests]> (requests rl) in
       if overLimit cfg filteredRequests then
         (false,
          {| requests := reqs;
             blackList := <[ip := true]> (blackList rl);
             brownList := brownList rl |},
          [EvSend blacklistCh ip])
       else
         (true,
          {| requests := reqs; blackList := blackList rl; brownList := brownList rl |},
          [])).

(** One round of the loop of [cleanUp], after its sleep.  The clock is read
    anew for every key, so [nowOf ip] is the reading taken for [ip]. *)
Definition cleanUp (cfg : Config) (nowOf : string -> Z) (rl : rateLimiter)
  : rateLimiter * list event :=
  ({| requests :=
        map_imap (fun ip times => Some (prune (cutoff cfg (nowOf ip)) times))
                 (requests rl);
      blackList := blackList rl;
      brownList := brownList rl |},
   [EvLock; EvUnlock]).

(** The operations that run against one rate limiter: the two checks of the
    request handler, a round of the sweep, and a timer goroutine running to
    its end. *)
Inductive op :=
| OpSession (ip : string) (t0 now : Z)
| OpLimit (ip : string) (now : Z)
| OpCleanUp (nowOf : string -> Z)
| OpTimer (ip : string) (ch : chan) (d : Z).

Definition step (cfg : Config) (o : op) (rl : rateLimiter) : rateLimiter * list event :=
  match o with
  | OpSession ip t0 now => let '(_, rl', evs) := sessionCheck cfg t0 now ip rl in (rl', evs)
  | OpLimit ip now => let '(_, rl', evs) := limitCheck cfg now ip rl in (rl', evs)
  | OpCleanUp nowOf => cleanUp cfg nowOf rl
  | OpTimer ip ch d => (rl, startTimer ip ch d)
  end.

Fixpoint run (cfg : Config) (ops : list op) (rl : rateLimiter) : rateLimiter :=
  match ops with
  | [] => rl
  | o :: ops' => run cfg ops' (fst (step cfg o rl))
  end.

End Limiter.

(** ** LoadB/lb.go: the load balancer *)

Module LoadB.

(** Go's [int] on a 64-bit platform: [++] wraps around. *)
Definition wrap64 (z : Z) : Z := (z + 2 ^ 63) mod 2 ^ 64 - 2 ^ 63.

(** How a call ends: it returns, it panics (index out of range, division by
    zero, method call on a nil interface), or its loop is still running when
    the fuel is spent. *)
Inductive result (A : Type) :=
| Ret (a : A)
| Panic
| Spin.
Arguments Ret {A} a.
Arguments Panic {A}.
Arguments Spin {A}.

Definition bind {A B : Type} (r : result A) (k : A -> result B) : result B :=
  match r with
  | Ret a => k a
  | Panic => Panic
  | Spin => Spin
  end.

Notation "'do' x <- r ; k" := (bind r (fun x => k))
  (at level 10, x name, r at level 100, k at level 200, only parsing).
Notation "'do' ' p <- r ; k" := (bind r (fun x => let 'p := x in k))
  (at level 10, p pattern, r at level 100, k at level 200, only parsing).

(** [type Server interface].  [Serve] forwards the request; what it does to
    the network is outside, what it does to the object is a method like the
    others. *)
Class Server (S : Type) := {
  Address : S -> string;
  IsAlive : S -> bool;
  Serve : S -> S;
  ActiveConn : S -> Z;
  IncActiveConn : S -> S;
  DecActiveConn : S -> S
}.

(** [type SimpleServer struct], without its proxy and its mutex. *)
Record SimpleServer := {
  addr : string;
  activeConn : Z
}.

Definition NewServer (a : string) : SimpleServer :=
  {| addr := a; activeConn := 0 |}.

#[export] Instance SimpleServer_Server : Server SimpleServer := {
  Address s := addr s;
  IsAlive _ := true;
  Serve s := s;
  ActiveConn s := activeConn s;
  IncActiveConn s := {| addr := addr s; activeConn := wrap64 (activeConn s + 1) |};
  DecActiveConn s := {| addr := addr s; activeConn := wrap64 (activeConn s - 1) |}
}.

(** A second implementation of the interface, whose liveness is a field: the
    backends of a pool in which some are down. *)
Record ProbeServer := {
  probeAddr : string;
  probeAlive : bool;
  probeConn : Z
}.

#[export] Instance ProbeServer_Server : Server ProbeServer := {
  Address s := probeAddr s;
  IsAlive s := probeAlive s;
  Serve s := s;
  ActiveConn s := probeConn s;
  IncActiveConn s :=
    {| probeAddr := probeAddr s; probeAlive := probeAlive s;
       probeConn := wrap64 (probeConn s + 1) |};
  DecActiveConn s :=
    {| probeAddr := probeAddr s; probeAlive := probeAlive s;
       probeConn := wrap64 (probeConn s - 1) |}
}.

(** A [Server] value is a pointer to an object: the objects live in a heap
    (a list, addressed by position), and the pool and the session table hold
    addresses, so that a counter changed through one of them is seen through
    the other.  An address outside the heap stands for [nil]. *)
Definition ptr := nat.

(** The method calls that the body of [ServeProxy] makes on its target once
    it is chosen: [IncActiveConn], [Address] for the log line, [Serve], and
    the [DecActiveConn] of the lines that are commented out.  The calls of
    [IsAlive] and [ActiveConn] are made by the two selections, on every
    backend they visit: they are the reads [aliveb] and [conn] of
    [GetNextAvailableServer] and [leastConn], and are not listed here. *)
Inductive call :=
| CallInc (p : ptr)
| CallAddress (p : ptr)
| CallServe (p : ptr)
| CallDec (p : ptr).

(** [type Loadbalancer struct]. *)
Record Loadbalancer := {
  Port : string;
  Servers : list ptr;
  RoundRobinCount : Z;
  SessionTable : gmap string ptr;
  Algorithm : string
}.

Definition NewLoadbalancer (p : string) (servers : list ptr) (algorithm : string)
  : Loadbalancer :=
  {| Port := p; Servers := servers; RoundRobinCount := 0;
     SessionTable := ∅; Algorithm := algorithm |}.

Definition setCount (lb : Loadbalancer) (c : Z) : Loadbalancer :=
  {| Port := Port lb; Servers := Servers lb; RoundRobinCount := c;
     SessionTable := SessionTable lb; Algorithm := Algorithm lb |}.

Definition bindSession (lb : Loadbalancer) (sessionID : string) (p : ptr) : Loadbalancer :=
  {| Port := Port lb; Servers := Servers lb; RoundRobinCount := RoundRobinCount lb;
     SessionTable := <[sessionID := p]> (SessionTable lb); Algorithm := Algorithm lb |}.

(** [lb.Servers[count % len(lb.Servers)]]: [%] truncates toward zero, an empty
    slice divides by zero and a negative index is out of range. *)
Definition serverAt (servers : list ptr) (count : Z) : result ptr :=
  match servers with
  | [] => Panic
  | _ :: _ =>
      let i := Z.rem count (Z.of_nat (length servers)) in
      if i <? 0 then Panic
      else match servers !! Z.to_nat i with
           | Some p => Ret p
           | None => Panic
           end
  end.

Section Pool.
Context {S : Type} `{Server S}.

(** A method call through an interface value: [nil] panics. *)
Definition deref (heap : list S) (p : ptr) : result S :=
  match heap !! p with
  | Some s => Ret s
  | None => Panic
  end.

(** The loop [for !server.IsAlive() { lb.RoundRobinCount++; server = ... }]
    of [GetNextAvailableServer], one iteration for each unit of fuel. *)
Fixpoint probe (fuel : nat) (heap : list S) (servers : list ptr) (count : Z) (server : ptr)
  : result (Z * ptr) :=
  do s <- deref heap server ;
  if IsAlive s then Ret (count, server)
  else
    match fuel with
    | O => Spin
    | Datatypes.S fuel' =>
        let count' := wrap64 (count + 1) in
        do server' <- serverAt servers count' ;
        probe fuel' heap servers count' server'
    end.

Definition GetNextAvailableServer (fuel : nat) (heap : list S) (lb : Loadbalancer)
  : result (Loadbalancer * ptr) :=
  do server <- serverAt (Servers lb) (RoundRobinCount lb) ;
  do '(count, server') <- probe fuel heap (Servers lb) (RoundRobinCount lb) server ;
  Ret (setCount lb (wrap64 (count + 1)), server').

(** The loop of [GetLeastConnServer]; [selected] starts as [nil]. *)
Fixpoint leastConn (heap : list S) (servers : list ptr) (selected : option ptr)
  : result (option ptr) :=
  match servers with
  | [] => Ret selected
  | server :: rest =>
      do s <- deref heap server ;
      if negb (IsAlive s) then leastConn heap rest selected
      else
        match selected with
        | None => leastConn heap rest (Some server)
        | Some sel =>
            do cur <- deref heap sel ;
            if ActiveConn s <? ActiveConn cur then leastConn heap rest (Some server)
            else leastConn heap rest selected
        end
  end.

Definition GetLeastConnServer (heap : list S) (lb : Loadbalancer) : result (option ptr) :=
  leastConn heap (Servers lb) None.

(** Lines 59-75 of [ServeProxy]: the choice of [targetServer], [None] when it
    is left [nil]. *)
Definition pickTarget (fuel : nat) (sessionID : string) (heap : list S) (lb : Loadbalancer)
  : result (Loadbalancer * option ptr) :=
  if bool_decide (sessionID ≠ "") then
    match SessionTable lb !! sessionID with
    | Some p => Ret (lb, Some p)
    | None =>
        do '(lb', p) <- GetNextAvailableServer fuel heap lb ;
        Ret (bindSession lb' sessionID p, Some p)
    end
  else if bool_decide (Algorithm lb = "lc") then
    do sel <- GetLeastConnServer heap lb ;
    Ret (lb, sel)
  else if bool_decide (Algorithm lb = "rr") then
    do '(lb', p) <- GetNextAvailableServer fuel heap lb ;
    Ret (lb', Some p)
  else Ret (lb, None).

(** [ServeProxy], for a request whose [Session-ID] header is [sessionID]
    (empty when there is none).  It returns the pool, the heap, the target and
    the calls its body made on the target after the selection, in order:
    [IncActiveConn], [Address] (whose result is logged and changes nothing)
    and [Serve].  The two lines that would call [DecActiveConn] are commented
    out in the source, so no such call is made. *)
Definition ServeProxy (fuel : nat) (sessionID : string) (heap : list S) (lb : Loadbalancer)
  : result (Loadbalancer * list S * ptr * list call) :=
  do '(lb', target) <- pickTarget fuel sessionID heap lb ;
  match target with
  | None => Panic
  | Some p =>
      do s <- deref heap p ;
      let heap1 := <[p := IncActiveConn s]> heap in
      do s1 <- deref heap1 p ;
      let heap2 := <[p := Serve s1]> heap1 in
      Ret (lb', heap2, p, [CallInc p; CallAddress p; CallServe p])
  end.

(** Requests served one after the other, each given by its [Session-ID]
    header; the targets are returned in the order of the requests. *)
Fixpoint serveAll (fuel : nat) (sessionIDs : list string) (heap : list S) (lb : Loadbalancer)
  : result (Loadbalancer * list S * list ptr) :=
  match sessionIDs with
  | [] => Ret (lb, heap, [])
  | sessionID :: rest =>
      do '(lb1, heap1, p, _) <- ServeProxy fuel sessionID heap lb ;
      do '(lb2, heap2, ps) <- serveAll fuel rest heap1 lb1 ;
      Ret (lb2, heap2, p :: ps)
  end.

(** What the methods answer for the object at an address; [false] and [0]
    where there is none. *)
Definition aliveb (heap : list S) (p : ptr) : bool :=
  match heap !! p with
  | Some s => IsAlive s
  | None => false
  end.

Definition conn (heap : list S) (p : ptr) : Z :=
  match heap !! p with
  | Some s => ActiveConn s
  | None => 0
  end.

(** Whether the backend the cursor value [count] points at is alive. *)
Definition aliveAt (heap : list S) (servers : list ptr) (count : Z) : bool :=
  match serverAt servers count with
  | Ret p => aliveb heap p
  | _ => false
  end.

End Pool.

(** A pool of one backend that is down. *)
Definition downHeap : list ProbeServer :=
  [{| probeAddr := "http://a"; probeAlive := false; probeConn := 0 |}].

Definition downPool : Loadbalancer := NewLoadbalancer "8080" [0%nat] "rr".

(** The pool [A, B, C] with 2, 0 and 1 active connections, and the same pool
    with 1, 0 and 0. *)
Definition abcHeap : list SimpleServer :=
  [{| addr := "http://a"; activeConn := 2 |};
   {| addr := "http://b"; activeConn := 0 |};
   {| addr := "http://c"; activeConn := 1 |}].

Definition tieHeap : list SimpleServer :=
  [{| addr := "http://a"; activeConn := 1 |};
   {| addr := "http://b"; activeConn := 0 |};
   {| addr := "http://c"; activeConn := 0 |}].

Definition abcPool : Loadbalancer :=
  NewLoadbalancer "8080" [0%nat; 1%nat; 2%nat] "lc".

(** [abcPool] after a first request with session token [s1] was served. *)
Definition boundPool : Loadbalancer := bindSession (setCount abcPool 1) "s1" 0%nat.

(** A pool of one fresh backend, as [main] builds them. *)
Definition oneHeap : list SimpleServer := [NewServer "http://a"].

Definition onePool : Loadbalancer := NewLoadbalancer "8080" [0%nat] "lc".

End LoadB.

(** ** Goroutines, the mutex and the channels *)

Module Sched.
Import Limiter.

(** The first half of [handleRedirect], the request handler of [main]: a
    request with a [Session-ID] header goes through [sessionCheck], any other
    through [limitCheck]. *)
Definition admission (cfg : Config) (sessionID : string) (t0 now : Z) (ip : string)
  (rl : rateLimiter) : bool * rateLimiter * list event :=
  if bool_decide (sessionID ≠ "") then sessionCheck cfg t0 now ip rl
  else limitCheck cfg now ip rl.

(** Requests of one address handled one after the other; a request is its
    header and the two clock readings. *)
Fixpoint admissions (cfg : Config) (ip : string) (reqs : list (string * Z * Z))
  (rl : rateLimiter) : list bool * rateLimiter :=
  match reqs with
  | [] => ([], rl)
  | (sessionID, t0, now) :: reqs' =>
      let '(ok, rl', _) := admission cfg sessionID t0 now ip rl in
      let '(oks, rl'') := admissions cfg ip reqs' rl' in
      (ok :: oks, rl'')
  end.

(** The state an admitted request leaves: the window is stored, the two
    block lists are as they were. *)
Definition admitted (cfg : Config) (now : Z) (ip : string) (rl : rateLimiter)
  : rateLimiter :=
  {| requests := <[ip := window cfg now (history rl ip)]> (requests rl);
     blackList := blackList rl; brownList := brownList rl |}.

(** A call of [sessionCheck] for [ip] reads the clock before instant [e];
    nothing is asked of the other operations. *)
Definition sessionBefore (ip : string) (e : Z) (o : op) : Prop :=
  match o with
  | OpSession ip' t0 _ => ip' = ip -> t0 < e
  | _ => True
  end.

(** Whether any two instants of [ts] are at most [d] apart. *)
Definition withinb (d : Z) (ts : list Z) : bool :=
  forallb (fun x => forallb (fun y => x - y <=? d) ts) ts.

(** The second clock reading of a request, the one that enters the history. *)
Definition stamp (r : string * Z * Z) : Z := r.2.

(** A request without a session header, at clock reading [t]. *)
Definition plain (t : Z) : string * Z * Z := ("", t, t).

(** Two clients, and the instants of twenty requests 200ms apart. *)
Definition clientA : string := "10.0.0.1".
Definition clientB : string := "10.0.0.2".

Definition burst : list Z :=
  map (fun k => Z.of_nat k * 200000000) (seq 0 20).

(** The rate limiter after [clientA] sent the twenty requests of [burst]
    without session header. *)
Definition busy : rateLimiter :=
  (admissions defaults clientA (map plain burst) newRateLimiter).2.

(** Twenty requests at the instants of [burst], every other one with a
    session header. *)
Definition mixed : list (string * Z * Z) :=
  map (fun k => (if Nat.even k then "s1" else "",
                 Z.of_nat k * 200000000, Z.of_nat k * 200000000))
      (seq 0 20).

(** A rate limiter whose only entry puts [clientA] on the brown list until
    instant [25 * second]. *)
Definition browned : rateLimiter :=
  {| requests := ∅; blackList := ∅; brownList := {[ clientA := 25 * second ]} |}.

(** Whether the mutex is held at every send of a trace; [held] says whether it
    is held where the trace starts. *)
Fixpoint heldAtSends (held : bool) (evs : list event) : bool :=
  match evs with
  | [] => true
  | EvLock :: evs' => heldAtSends true evs'
  | EvUnlock :: evs' => heldAtSends false evs'
  | EvSend _ _ :: evs' => held && heldAtSends held evs'
  | _ :: evs' => heldAtSends held evs'
  end.

(** Whether a trace never touches the mutex. *)
Definition lockFree (evs : list event) : bool :=
  forallb (fun e => match e with EvLock | EvUnlock => false | _ => true end) evs.

(** The goroutines of a run, each with the events it has still to perform,
    and the goroutine that holds [rl.mu], if any. *)
Record sys := {
  holder : option nat;
  threads : list (list event)
}.

(** One step of goroutine [i].  [ready c] says whether a receiver is waiting
    on [c]: [main] makes both channels unbuffered, so a send goes through only
    then.  [Lock] goes through only when the mutex is free. *)
Definition stepThread (ready : chan -> bool) (σ : sys) (i : nat) : option sys :=
  match threads σ !! i with
  | Some (EvLock :: rest) =>
      match holder σ with
      | None => Some {| holder := Some i; threads := <[i := rest]> (threads σ) |}
      | Some _ => None
      end
  | Some (EvUnlock :: rest) =>
      Some {| holder := None; threads := <[i := rest]> (threads σ) |}
  | Some (EvSend c _ :: rest) =>
      if ready c then Some {| holder := holder σ; threads := <[i := rest]> (threads σ) |}
      else None
  | Some (EvGo ip c d :: rest) =>
      Some {| holder := holder σ;
              threads := <[i := rest]> (threads σ) ++ [startTimer ip c d] |}
  | Some (EvSleep _ :: rest) =>
      Some {| holder := holder σ; threads := <[i := rest]> (threads σ) |}
  | Some [] | None => None
  end.

(** A schedule names the goroutine that moves at each step. *)
Fixpoint runSched (ready : chan -> bool) (σ : sys) (sched : list nat) : option sys :=
  match sched with
  | [] => Some σ
  | i :: sched' =>
      match stepThread ready σ i with
      | Some σ' => runSched ready σ' sched'
      | None => None
      end
  end.

(** No goroutine can move, and one of them has not finished. *)
Definition deadlocked (ready : chan -> bool) (σ : sys) : Prop :=
  (∀ i, stepThread ready σ i = None) ∧ ∃ i e evs, threads σ !! i = Some (e :: evs).

(** A run of a goroutine body started at instant [t], every event with the
    instant at which it is over: time does not go back, and [time.Sleep(d)]
    is over no earlier than [d] after it began. *)
Inductive timed : Z -> list event -> list (Z * event) -> Prop :=
| timed_nil t : timed t [] []
| timed_cons t t' e evs tr :
    t + match e with EvSleep d => Z.max 0 d | _ => 0 end ≤ t' ->
    timed t' evs tr ->
    timed t (e :: evs) ((t', e) :: tr).

(** The sends on [c] of a timed run. *)
Definition sendsOn (c : chan) (tr : list (Z * event)) : list (Z * string) :=
  omap (fun te => match te with
                  | (t, EvSend c' ip) => if bool_decide (c' = c) then Some (t, ip) else None
                  | _ => None
                  end) tr.

End Sched.

(** ** main.go: the request handler; runs of the limiter and of the pool *)

Module Gateway.
Import Stdlib.Strings.Ascii.
Import Limiter LoadB Sched.

#[export] Instance event_eq_dec : EqDecision event.
Proof. solve_decision. Defined.

(** [strings.Split(r.RemoteAddr, ":")[0]]: what stands before the first
    colon, the whole string when it has none. *)
Fixpoint clientIP (remoteAddr : string) : string :=
  match remoteAddr with
  | EmptyString => EmptyString
  | String c rest =>
      if Ascii.eqb c ":"%char then EmptyString else String c (clientIP rest)
  end.

Fixpoint hasColon (s : string) : bool :=
  match s with
  | EmptyString => false
  | String c rest => Ascii.eqb c ":"%char || hasColon rest
  end.

(** What the handler answers: [http.Error(w, body, 429)], or the request
    forwarded to a backend. *)
Inductive response :=
| TooManyRequests (body : string)
| Forwarded (backend : ptr).

Section Handler.
Context {S : Type} `{Server S}.

(** [handleRedirect], the closure of [main], for a request with the given
    [RemoteAddr] and [Session-ID] header.  The rate limiter is changed by the
    check whatever [ServeProxy] does afterwards. *)
Definition handleRedirect (cfg : Config) (fuel : nat) (remoteAddr sessionID : string)
  (t0 now : Z) (rl : rateLimiter) (heap : list S) (lb : Loadbalancer)
  : rateLimiter * result (response * Loadbalancer * list S) :=
  let ip := clientIP remoteAddr in
  if bool_decide (sessionID ≠ "") then
    let '(ok, rl', _) := sessionCheck cfg t0 now ip rl in
    if negb ok then (rl', Ret (TooManyRequests "Session Rate Limit exceeded", lb, heap))
    else (rl', do '(lb', heap', p, _) <- ServeProxy fuel sessionID heap lb ;
               Ret (Forwarded p, lb', heap'))
  else
    let '(ok, rl', _) := limitCheck cfg now ip rl in
    if negb ok then (rl', Ret (TooManyRequests "Rate limit exceeded", lb, heap))
    else (rl', do '(lb', heap', p, _) <- ServeProxy fuel sessionID heap lb ;
               Ret (Forwarded p, lb', heap')).

(** Requests handled one after the other, each given by its [RemoteAddr],
    its header and its two clock readings; the run ends with the first
    request whose [ServeProxy] does not return. *)
Fixpoint handleAll (cfg : Config) (fuel : nat) (reqs : list (string * string * Z * Z))
  (rl : rateLimiter) (heap : list S) (lb : Loadbalancer)
  : rateLimiter * result (list response * Loadbalancer * list S) :=
  match reqs with
  | [] => (rl, Ret ([], lb, heap))
  | (remoteAddr, sessionID, t0, now) :: reqs' =>
      match handleRedirect cfg fuel remoteAddr sessionID t0 now rl heap lb with
      | (rl1, Ret (r, lb1, heap1)) =>
          match handleAll cfg fuel reqs' rl1 heap1 lb1 with
          | (rl2, Ret (rs, lb2, heap2)) => (rl2, Ret (r :: rs, lb2, heap2))
          | (rl2, Panic) => (rl2, Panic)
          | (rl2, Spin) => (rl2, Spin)
          end
      | (rl1, Panic) => (rl1, Panic)
      | (rl1, Spin) => (rl1, Spin)
      end
  end.

(** [k] calls of [GetNextAvailableServer] in a row. *)
Fixpoint nextN (fuel k : nat) (heap : list S) (lb : Loadbalancer)
  : result (Loadbalancer * list ptr) :=
  match k with
  | O => Ret (lb, [])
  | Datatypes.S k' =>
      do '(lb1, p) <- GetNextAvailableServer fuel heap lb ;
      do '(lb2, ps) <- nextN fuel k' heap lb1 ;
      Ret (lb2, p :: ps)
  end.

(** Whether no backend of [servers] has more than one connection more than
    another. *)
Definition balancedb (heap : list S) (servers : list ptr) : bool :=
  forallb (fun p => forallb (fun q => conn heap p <=? conn heap q + 1) servers) servers.

End Handler.

(** The events of a run of operations, in order. *)
Fixpoint trace (cfg : Config) (ops : list op) (rl : rateLimiter) : list event :=
  match ops with
  | [] => []
  | o :: ops' => (step cfg o rl).2 ++ trace cfg ops' (step cfg o rl).1
  end.

(** How many times [ip] is sent on the block channel in a list of events. *)
Definition blockSends (ip : string) (evs : list event) : nat :=
  length (List.filter (fun e => bool_decide (e = EvSend blacklistCh ip)) evs).

(** An operation that is no call of [sessionCheck] for [ip] and no timer on
    the block channel (the code starts timers on the unblock channel only). *)
Definition offSession (ip : string) (o : op) : bool :=
  match o with
  | OpSession ip' _ _ => bool_decide (ip' ≠ ip)
  | OpTimer _ ch _ => bool_decide (ch = unblockCh)
  | _ => true
  end.

(** How many times a timer is started for [ip] in a list of events, as
    [sessionCheck] starts them. *)
Definition timerStarts (cfg : Config) (ip : string) (evs : list event) : nat :=
  length (List.filter
            (fun e => bool_decide (e = EvGo ip unblockCh (brownListedDuration cfg))) evs).

(** An operation that is no call of [limitCheck] for [ip] and no timer on
    the block channel. *)
Definition offLimit (ip : string) (o : op) : bool :=
  match o with
  | OpLimit ip' _ => bool_decide (ip' ≠ ip)
  | OpTimer _ ch _ => bool_decide (ch = unblockCh)
  | _ => true
  end.

(** An operation that is a check for another address than [ip], or a
    timer. *)
Definition foreign (ip : string) (o : op) : bool :=
  match o with
  | OpSession ip' _ _ | OpLimit ip' _ => bool_decide (ip' ≠ ip)
  | OpCleanUp _ => false
  | OpTimer _ _ _ => true
  end.

(** Whether a request comes from [ip], as the handler reads its
    [RemoteAddr], and carries no session header. *)
Definition plainFrom (ip : string) (r : string * string * Z * Z) : bool :=
  bool_decide (clientIP r.1.1.1 = ip) && bool_decide (r.1.1.2 = "").

(** Three requests of [clientA] without session header, from three ports. *)
Definition flood : list (string * string * Z * Z) :=
  [("10.0.0.1:50001", "", 5 * second, 5 * second);
   ("10.0.0.1:50002", "", 6 * second, 6 * second);
   ("10.0.0.1:50003", "", 90 * second, 90 * second)].

(** A [SimpleServer] whose counter is at the largest value of an [int]. *)
Definition fullServer : SimpleServer :=
  {| addr := "http://a"; activeConn := 2 ^ 63 - 1 |}.

(** Whether the brown list holds [ip] back at clock reading [t0]: the test
    of lines 48-49 of [sessionCheck]. *)
Definition held (rl : rateLimiter) (ip : string) (t0 : Z) : bool :=
  match brownList rl !! ip with
  | Some endTime => t0 <? endTime
  | None => false
  end.

(** Whether every instant of [ts] comes at least [gap] after all the instants
    before it in the list. *)
Fixpoint spacedb (gap : Z) (ts : list Z) : bool :=
  match ts with
  | [] => true
  | t :: rest => forallb (fun u => t + gap <=? u) rest && spacedb gap rest
  end.

(** Requests one second apart, every third one with a session header. *)
Definition steady : list (string * Z * Z) :=
  map (fun k => (if Nat.eqb (k mod 3) 0 then "s1" else "",
                 Z.of_nat k * second, Z.of_nat k * second))
      (seq 0 60).

(** [busy] after the twenty-first plain request of [clientA]: the address is
    on the blacklist. *)
Definition listed : rateLimiter :=
  (limitCheck defaults (4 * second) clientA busy).1.2.

(** A pool whose algorithm is spelled as the comment of the field spells it,
    and a pool without backends. *)
Definition spelledPool : Loadbalancer := NewLoadbalancer "8080" [0%nat] "leastconn".

Definition emptyPool : Loadbalancer := NewLoadbalancer "8080" [] "rr".

End Gateway.

(** * Properties of the rate limiter *)

Section LimiterFacts.
Import Limiter Sched.

Variable cfg : Config.

(** ** What one call does *)

Lemma limitCheck_listed now ip rl :
  blackListed rl ip = true ->
  limitCheck cfg now ip rl = (false, rl, [EvLock; EvUnlock]).
Proof. intros Hb. unfold limitCheck. now rewrite Hb. Qed.

Lemma limitCheck_admit now ip rl :
  blackListed rl ip = false ->
  overLimit cfg (window cfg now (history rl ip)) = false ->
  limitCheck cfg now ip rl =
    (true,
     {| requests := <[ip := window cfg now (history rl ip)]> (requests rl);
        blackList := blackList rl; brownList := brownList rl |},
     [EvLock; EvUnlock]).
Proof. intros Hb Ho. unfold limitCheck. rewrite Hb. cbn zeta. now rewrite Ho. Qed.

Lemma limitCheck_block now ip rl :
  blackListed rl ip = false ->
  overLimit cfg (window cfg now (history rl ip)) = true ->
  limitCheck cfg now ip rl =
    (false,
     {| requests := <[ip := window cfg now (history rl ip)]> (requests rl);
        blackList := <[ip := true]> (blackList rl); brownList := brownList rl |},
     [EvLock; EvSend blacklistCh ip; EvUnlock]).
Proof. intros Hb Ho. unfold limitCheck. rewrite Hb. cbn zeta. now rewrite Ho. Qed.

Lemma sessionWindow_admit now ip rl :
  overLimit cfg (window cfg now (history rl ip)) = false ->
  sessionWindow cfg now ip rl =
    (true,
     {| requests := <[ip := window cfg now (history rl ip)]> (requests rl);
        blackList := blackList rl; brownList := brownList rl |},
     []).
Proof. intros Ho. unfold sessionWindow. cbn zeta. now rewrite Ho. Qed.

Lemma sessionWindow_block now ip rl :
  overLimit cfg (window cfg now (history rl ip)) = true ->
  sessionWindow cfg now ip rl =
    (false,
     {| requests := <[ip := window cfg now (history rl ip)]> (requests rl);
        blackList := blackList rl;
        brownList := <[ip := now + brownListedDuration cfg]> (brownList rl) |},
     [EvSend blacklistCh ip; EvGo ip unblockCh (brownListedDuration cfg)]).
Proof. intros Ho. unfold sessionWindow. cbn zeta. now rewrite Ho. Qed.

Lemma sessionCheck_held t0 now ip rl endTime :
  brownList rl !! ip = Some endTime -> t0 < endTime ->
  sessionCheck cfg t0 now ip rl = (false, rl, [EvLock; EvUnlock]).
Proof.
  intros Hb Ht. unfold sessionCheck. rewrite Hb.
  now rewrite (proj2 (Z.ltb_lt _ _) Ht).
Qed.

Lemma sessionCheck_expired t0 now ip rl endTime :
  brownList rl !! ip = Some endTime -> endTime <= t0 ->
  sessionCheck cfg t0 now ip rl =
    withLock (sessionWindow cfg now ip
                {| requests := requests rl; blackList := blackList rl;
                   brownList := delete ip (brownList rl) |}).
Proof.
  intros Hb Ht. unfold sessionCheck. rewrite Hb.
  now rewrite (proj2 (Z.ltb_ge _ _) Ht).
Qed.

Lemma sessionCheck_free t0 now ip rl :
  brownList rl !! ip = None ->
  sessionCheck cfg t0 now ip rl = withLock (sessionWindow cfg now ip rl).
Proof. intros Hb. unfold sessionCheck. now rewrite Hb. Qed.

(** ** The window *)

Lemma prune_all cutoff ts :
  Forall (fun t => cutoff < t) ts -> prune cutoff ts = ts.
Proof.
  induction 1 as [|t ts Ht _ IH]; [reflexivity|].
  unfold prune in *. cbn. rewrite (proj2 (Z.ltb_lt _ _) Ht). now rewrite IH.
Qed.

Lemma prune_none cutoff ts :
  Forall (fun t => t <= cutoff) ts -> prune cutoff ts = [].
Proof.
  induction 1 as [|t ts Ht _ IH]; [reflexivity|].
  unfold prune in *. cbn. now rewrite (proj2 (Z.ltb_ge _ _) Ht).
Qed.

Lemma prune_app cutoff ts us :
  prune cutoff (ts ++ us) = prune cutoff ts ++ prune cutoff us.
Proof. unfold prune. apply List.filter_app. Qed.

Lemma withinb_spec d ts x y :
  withinb d ts = true -> In x ts -> In y ts -> x - y <= d.
Proof.
  unfold withinb. intros Hw Hx Hy.
  rewrite forallb_forall in Hw. specialize (Hw x Hx).
  rewrite forallb_forall in Hw. specialize (Hw y Hy). lia.
Qed.

Lemma cutoff_minus now :
  - 2 ^ 63 < trackingDuration cfg -> cutoff cfg now = now - trackingDuration cfg.
Proof.
  intros Htd. unfold cutoff, negDuration.
  rewrite (proj2 (Z.eqb_neq _ _)) by lia. lia.
Qed.

Lemma window_within d now h :
  withinb d (h ++ [now]) = true -> d < trackingDuration cfg ->
  window cfg now h = h ++ [now].
Proof.
  intros Hw Hd. unfold window. apply prune_all.
  apply List.Forall_forall. intros t Ht.
  assert (In now (h ++ [now])) by (apply in_or_app; right; now left).
  pose proof (withinb_spec _ _ now t Hw H Ht).
  pose proof (withinb_spec _ _ now now Hw H H).
  rewrite cutoff_minus by lia. lia.
Qed.

Lemma withinb_prefix d ts us :
  withinb d (ts ++ us) = true -> withinb d ts = true.
Proof.
  unfold withinb. rewrite !forallb_forall. intros Hw x Hx.
  specialize (Hw x (in_or_app _ _ _ (or_introl Hx))).
  rewrite forallb_forall in *. intros y Hy.
  apply Hw. apply in_or_app. now left.
Qed.

(** ** Requests that stay under the limit *)

Lemma history_admitted now ip rl :
  history (admitted cfg now ip rl) ip = window cfg now (history rl ip).
Proof. unfold history at 1, admitted. cbn. now rewrite lookup_insert_eq. Qed.

Lemma admission_admit sessionID t0 now ip rl :
  blackListed rl ip = false ->
  brownList rl !! ip = None \/ sessionID = "" ->
  overLimit cfg (window cfg now (history rl ip)) = false ->
  admission cfg sessionID t0 now ip rl = (true, admitted cfg now ip rl, [EvLock; EvUnlock]).
Proof.
  intros Hb Hs Ho. unfold admission. case_bool_decide as Hid.
  - destruct Hs as [Hs|Hs]; [|contradiction].
    rewrite (sessionCheck_free _ _ _ _ Hs), (sessionWindow_admit _ _ _ Ho).
    reflexivity.
  - now rewrite (limitCheck_admit _ _ _ Hb Ho).
Qed.

Lemma admissions_app ip reqs1 reqs2 rl :
  admissions cfg ip (reqs1 ++ reqs2) rl =
    ((admissions cfg ip reqs1 rl).1
       ++ (admissions cfg ip reqs2 (admissions cfg ip reqs1 rl).2).1,
     (admissions cfg ip reqs2 (admissions cfg ip reqs1 rl).2).2).
Proof.
  revert rl. induction reqs1 as [|[[sid t0] now] reqs1 IH]; intros rl; cbn.
  - now destruct (admissions cfg ip reqs2 rl).
  - destruct (admission cfg sid t0 now ip rl) as [[ok rl1] evs].
    rewrite IH. destruct (admissions cfg ip reqs1 rl1) as [oks rl2]. cbn.
    reflexivity.
Qed.

(** Requests of either kind, all within a span shorter than the tracking
    duration and no more than the limit allows, are all admitted, and every
    one of them is in the history afterwards. *)
Lemma admissions_within ip d reqs : forall rl,
  blackListed rl ip = false ->
  brownList rl !! ip = None \/ Forall (fun r => r.1.1 = "") reqs ->
  withinb d (history rl ip ++ map stamp reqs) = true ->
  d < trackingDuration cfg ->
  Z.of_nat (length (history rl ip) + length reqs) <= rateLimit cfg ->
  (admissions cfg ip reqs rl).1 = repeat true (length reqs)
  /\ blackListed (admissions cfg ip reqs rl).2 ip = false
  /\ brownList (admissions cfg ip reqs rl).2 = brownList rl
  /\ history (admissions cfg ip reqs rl).2 ip = history rl ip ++ map stamp reqs.
Proof.
  induction reqs as [|[[sid t0] now] reqs IH]; intros rl Hb Hs Hw Hd Hn.
  - cbn. now rewrite app_nil_r.
  - cbn [map stamp snd] in Hw.
    change (history rl ip ++ now :: map stamp reqs)
      with (history rl ip ++ [now] ++ map stamp reqs) in Hw.
    rewrite app_assoc in Hw.
    assert (Hwin : window cfg now (history rl ip) = history rl ip ++ [now])
      by (eapply window_within; eauto using withinb_prefix).
    assert (Ho : overLimit cfg (window cfg now (history rl ip)) = false).
    { unfold overLimit. rewrite Hwin, length_app. cbn [length] in *.
      apply Z.ltb_ge. lia. }
    assert (Hs1 : brownList rl !! ip = None \/ sid = "").
    { destruct Hs as [Hs|Hs]; [now left|right]. now inversion Hs. }
    cbn [admissions]. rewrite (admission_admit sid t0 now ip rl Hb Hs1 Ho).
    specialize (IH (admitted cfg now ip rl)).
    rewrite history_admitted, Hwin in IH.
    destruct IH as (IH1 & IH2 & IH3 & IH4); try assumption.
    + destruct Hs as [Hs|Hs]; [now left|right]. now inversion Hs.
    + rewrite length_app. cbn [length] in *. lia.
    + destruct (admissions cfg ip reqs (admitted cfg now ip rl)) as [oks rl2].
      cbn in *. rewrite IH1. repeat split; try assumption.
      now rewrite IH4, <- app_assoc.
Qed.

Lemma admission_block sessionID t0 now ip rl :
  blackListed rl ip = false ->
  brownList rl !! ip = None \/ sessionID = "" ->
  overLimit cfg (window cfg now (history rl ip)) = true ->
  (admission cfg sessionID t0 now ip rl).1.1 = false.
Proof.
  intros Hb Hs Ho. unfold admission. case_bool_decide as Hid.
  - destruct Hs as [Hs|Hs]; [|contradiction].
    now rewrite (sessionCheck_free _ _ _ _ Hs), (sessionWindow_block _ _ _ Ho).
  - now rewrite (limitCheck_block _ _ _ Hb Ho).
Qed.

Lemma stamp_plain ts : map stamp (map plain ts) = ts.
Proof. induction ts as [|t ts IH]; cbn; [|rewrite IH]; reflexivity. Qed.

Lemma plain_unsessioned ts : Forall (fun r : string * Z * Z => r.1.1 = "") (map plain ts).
Proof. induction ts; cbn; constructor; auto. Qed.

(** As many requests as the limit allows and one more, all within a span
    shorter than the tracking duration, from an address with an empty history:
    the last one is turned down and the others are let in. *)
Lemma admissions_burst ip rl (N : nat) reqs last d :
  blackListed rl ip = false ->
  brownList rl !! ip = None \/ Forall (fun r => r.1.1 = "") (reqs ++ [last]) ->
  history rl ip = [] ->
  rateLimit cfg = Z.of_nat N ->
  length reqs = N ->
  withinb d (map stamp (reqs ++ [last])) = true ->
  d < trackingDuration cfg ->
  (admissions cfg ip (reqs ++ [last]) rl).1 = repeat true N ++ [false].
Proof.
  intros Hb Hs Hh HN Hlen Hw Hd.
  assert (Hs1 : brownList rl !! ip = None \/ Forall (fun r => r.1.1 = "") reqs).
  { destruct Hs as [Hs|Hs]; [now left|right].
    apply Forall_app in Hs. tauto. }
  rewrite map_app in Hw.
  destruct (admissions_within ip d reqs rl) as (H1 & H2 & H3 & H4); try assumption.
  { rewrite Hh. cbn. eauto using withinb_prefix. }
  { rewrite Hh. cbn. lia. }
  rewrite admissions_app, H1, Hlen. f_equal.
  destruct last as [[sid t0] now]. cbn [admissions].
  set (rl1 := (admissions cfg ip reqs rl).2) in *.
  assert (Hblk : (admission cfg sid t0 now ip rl1).1.1 = false).
  { apply admission_block; [assumption| |].
    - rewrite H3. destruct Hs as [Hs|Hs]; [now left|right].
      apply Forall_app in Hs. destruct Hs as [_ Hs]. now inversion Hs.
    - rewrite H4, Hh. cbn [app map stamp snd] in *.
      rewrite (window_within d) by assumption.
      unfold overLimit. rewrite length_app, length_map. cbn [length].
      apply Z.ltb_lt. lia. }
  destruct (admission cfg sid t0 now ip rl1) as [[ok rl2] evs].
  cbn in *. now subst ok.
Qed.

(** C1.  A call of [limitCheck] for an address off the blacklist lets the
    request in exactly when the window, counted after the request's own
    instant was appended and the instants older than the tracking duration
    were dropped, holds no more than [rateLimit] of them: the window is the
    old history and the new instant, less every instant that is not after
    [now - trackingDuration].  So a client without session header that starts
    with an empty history and sends [rateLimit + 1] requests within a span
    shorter than the tracking duration (21 requests within 5 seconds under
    the defaults) has all but the last let in and the last turned down; had
    it sent the last one a tracking duration or more after the others, these
    would have been dropped from the window and the last let in as well. *)
Theorem limitCheck_threshold ip rl (N : nat) ts t d :
  blackListed rl ip = false ->
  history rl ip = [] ->
  rateLimit cfg = Z.of_nat N ->
  length ts = N ->
  withinb d (ts ++ [t]) = true ->
  d < trackingDuration cfg ->
  (forall now rl0, blackListed rl0 ip = false ->
     (limitCheck cfg now ip rl0).1.1
       = negb (overLimit cfg (window cfg now (history rl0 ip)))
     /\ history (limitCheck cfg now ip rl0).1.2 ip = window cfg now (history rl0 ip))
  /\ (forall t0 now rl0, admission cfg "" t0 now ip rl0 = limitCheck cfg now ip rl0)
  /\ (admissions cfg ip (map plain (ts ++ [t])) rl).1 = repeat true N ++ [false]
  /\ (forall now h,
        window cfg now h
        = List.filter (fun x => now - trackingDuration cfg <? x) (h ++ [now]))
  /\ (forall now rl0, blackListed rl0 ip = false ->
        (limitCheck cfg now ip rl0).1.1
        = (Z.of_nat (length (List.filter (fun x => now - trackingDuration cfg <? x)
                                         (history rl0 ip ++ [now])))
           <=? rateLimit cfg)
        /\ history (limitCheck cfg now ip rl0).1.2 ip
           = List.filter (fun x => now - trackingDuration cfg <? x)
                         (history rl0 ip ++ [now]))
  /\ (forall t', (1 <= N)%nat ->
        (forall x, In x ts -> x + trackingDuration cfg <= t') ->
        (admissions cfg ip (map plain (ts ++ [t'])) rl).1 = repeat true N ++ [true]
        /\ history (admissions cfg ip (map plain (ts ++ [t'])) rl).2 ip = [t']).
Proof.
  intros Hb Hh HN Hlen Hw Hd.
  assert (Htd : 0 < trackingDuration cfg).
  { assert (Hin : In t (ts ++ [t])) by (apply in_or_app; right; now left).
    pose proof (withinb_spec _ _ t t Hw Hin Hin). lia. }
  assert (Hwin : forall now h,
             window cfg now h
             = List.filter (fun x => now - trackingDuration cfg <? x) (h ++ [now])).
  { intros now h. unfold window, prune. now rewrite cutoff_minus by lia. }
  assert (Hcheck : forall now rl0, blackListed rl0 ip = false ->
             (limitCheck cfg now ip rl0).1.1
               = negb (overLimit cfg (window cfg now (history rl0 ip)))
             /\ history (limitCheck cfg now ip rl0).1.2 ip
                = window cfg now (history rl0 ip)).
  { intros now rl0 Hb0.
    destruct (overLimit cfg (window cfg now (history rl0 ip))) eqn:Ho.
    + rewrite (limitCheck_block _ _ _ Hb0 Ho). cbn. split; [reflexivity|].
      unfold history at 1. cbn. now rewrite lookup_insert_eq.
    + rewrite (limitCheck_admit _ _ _ Hb0 Ho). cbn. split; [reflexivity|].
      unfold history at 1. cbn. now rewrite lookup_insert_eq. }
  split; [exact Hcheck|]. split; [reflexivity|]. split; [|split; [exact Hwin|split]].
  - rewrite map_app. cbn [map].
    apply (admissions_burst ip rl N (map plain ts) (plain t) d); try assumption.
    + right. change (map plain ts ++ [plain t]) with (map plain ts ++ map plain [t]).
      rewrite <- map_app. apply plain_unsessioned.
    + now rewrite length_map.
    + change (map plain ts ++ [plain t]) with (map plain ts ++ map plain [t]).
      now rewrite <- map_app, stamp_plain.
  - intros now rl0 Hb0. destruct (Hcheck now rl0 Hb0) as [-> ->].
    rewrite <- Hwin. split; [|reflexivity].
    unfold overLimit. now rewrite Z.leb_antisym.
  - intros t' HN1 Hold.
    assert (Hts : withinb d (history rl ip ++ map stamp (map plain ts)) = true)
      by (rewrite Hh, stamp_plain; cbn; eauto using withinb_prefix).
    destruct (admissions_within ip d (map plain ts) rl Hb
                (or_intror (plain_unsessioned ts)) Hts Hd)
      as (H1 & H2 & H3 & H4).
    { rewrite Hh, length_map. cbn. lia. }
    rewrite map_app, admissions_app, H1, length_map, Hlen.
    set (rl1 := (admissions cfg ip (map plain ts) rl).2) in *.
    change (map plain [t']) with [("", t', t')]. cbn [admissions].
    rewrite Hh, stamp_plain in H4. cbn [app] in H4.
    assert (Hw1 : window cfg t' (history rl1 ip) = [t']).
    { rewrite H4. unfold window. rewrite prune_app, cutoff_minus by lia.
      rewrite prune_none.
      - unfold prune. cbn. now rewrite (proj2 (Z.ltb_lt _ _)) by lia.
      - apply List.Forall_forall. intros x Hx. specialize (Hold x Hx). lia. }
    assert (Ho : overLimit cfg (window cfg t' (history rl1 ip)) = false).
    { rewrite Hw1. unfold overLimit. cbn. apply Z.ltb_ge. lia. }
    rewrite (admission_admit "" t' t' ip rl1 H2 (or_intror eq_refl) Ho).
    cbn [fst snd]. split; [reflexivity|]. now rewrite history_admitted, Hw1.
Qed.

(** C9.  For an address on neither block list, [sessionCheck] and
    [limitCheck] store the same thing under [requests[ip]], the old history
    with the new instant appended and pruned, and both answer by the length of
    that one window.  So requests of the two kinds count together: after
    [rateLimit] requests of either kind within a span shorter than the
    tracking duration, the next request is turned down whichever path it
    takes. *)
Theorem shared_history ip rl (N : nat) reqs last d :
  blackListed rl ip = false ->
  brownList rl !! ip = None ->
  history rl ip = [] ->
  rateLimit cfg = Z.of_nat N ->
  length reqs = N ->
  withinb d (map stamp (reqs ++ [last])) = true ->
  d < trackingDuration cfg ->
  (forall t0 now rl0,
     blackListed rl0 ip = false -> brownList rl0 !! ip = None ->
     requests (sessionCheck cfg t0 now ip rl0).1.2
       = <[ip := window cfg now (history rl0 ip)]> (requests rl0)
     /\ requests (limitCheck cfg now ip rl0).1.2
       = <[ip := window cfg now (history rl0 ip)]> (requests rl0)
     /\ (sessionCheck cfg t0 now ip rl0).1.1
       = negb (overLimit cfg (window cfg now (history rl0 ip)))
     /\ (limitCheck cfg now ip rl0).1.1
       = negb (overLimit cfg (window cfg now (history rl0 ip))))
  /\ (admissions cfg ip (reqs ++ [last]) rl).1 = repeat true N ++ [false].
Proof.
  intros Hb Hs Hh HN Hlen Hw Hd. split.
  - intros t0 now rl0 Hb0 Hs0. rewrite (sessionCheck_free _ _ _ _ Hs0).
    destruct (overLimit cfg (window cfg now (history rl0 ip))) eqn:Ho.
    + rewrite (limitCheck_block _ _ _ Hb0 Ho), (sessionWindow_block _ _ _ Ho).
      cbn. auto.
    + rewrite (limitCheck_admit _ _ _ Hb0 Ho), (sessionWindow_admit _ _ _ Ho).
      cbn. auto.
  - apply (admissions_burst ip rl N reqs last d); auto.
Qed.

(** ** The blacklist *)

Lemma blackList_sessionCheck t0 now ip rl :
  blackList (sessionCheck cfg t0 now ip rl).1.2 = blackList rl.
Proof.
  unfold sessionCheck, sessionWindow.
  destruct (brownList rl !! ip) as [e|]; [destruct (t0 <? e)|]; cbn;
    try reflexivity;
    match goal with |- context [overLimit ?c ?w] => destruct (overLimit c w) end;
    reflexivity.
Qed.

Lemma blackListed_limitCheck now ip' ip rl :
  blackListed rl ip = true -> blackListed (limitCheck cfg now ip' rl).1.2 ip = true.
Proof.
  intros Hb. unfold limitCheck.
  destruct (blackListed rl ip') eqn:Hb'; [assumption|]. cbn zeta.
  destruct (overLimit cfg (window cfg now (history rl ip'))); cbn; [|assumption].
  unfold blackListed in *. cbn.
  destruct (decide (ip' = ip)) as [->|Hne].
  - now rewrite lookup_insert_eq.
  - now rewrite lookup_insert_ne.
Qed.

Lemma blackListed_step o ip rl :
  blackListed rl ip = true -> blackListed (step cfg o rl).1 ip = true.
Proof.
  intros Hb. destruct o as [ip' t0 now|ip' now|nowOf|ip' ch d]; cbn.
  - pose proof (blackList_sessionCheck t0 now ip' rl) as E.
    destruct (sessionCheck cfg t0 now ip' rl) as [[ok rl'] evs]. cbn in *.
    unfold blackListed in *. now rewrite E.
  - pose proof (blackListed_limitCheck now ip' ip rl Hb) as E.
    now destruct (limitCheck cfg now ip' rl) as [[ok rl'] evs].
  - assumption.
  - assumption.
Qed.

Lemma blackListed_run ops : forall ip rl,
  blackListed rl ip = true -> blackListed (run cfg ops rl) ip = true.
Proof.
  induction ops as [|o ops IH]; intros ip rl Hb; cbn; [assumption|].
  apply IH. now apply blackListed_step.
Qed.

(** C3.  Once [limitCheck] has put an address on the blacklist, whatever
    runs afterwards, calls of [limitCheck] and [sessionCheck] for any address,
    rounds of [cleanUp], timers, leaves it there, and every later call of
    [limitCheck] for the address is turned down without touching the state. *)
Theorem blacklist_terminal ip rl now :
  blackListed rl ip = false ->
  overLimit cfg (window cfg now (history rl ip)) = true ->
  (limitCheck cfg now ip rl).1.1 = false
  /\ blackListed (limitCheck cfg now ip rl).1.2 ip = true
  /\ forall ops now',
       blackListed (run cfg ops (limitCheck cfg now ip rl).1.2) ip = true
       /\ limitCheck cfg now' ip (run cfg ops (limitCheck cfg now ip rl).1.2)
          = (false, run cfg ops (limitCheck cfg now ip rl).1.2, [EvLock; EvUnlock]).
Proof.
  intros Hb Ho. rewrite (limitCheck_block _ _ _ Hb Ho). cbn [fst snd].
  set (rl1 := {| requests := _ |}).
  assert (H1 : blackListed rl1 ip = true).
  { unfold blackListed, rl1. cbn. now rewrite lookup_insert_eq. }
  split; [reflexivity|]. split; [assumption|].
  intros ops now'. pose proof (blackListed_run ops ip rl1 H1) as H2.
  split; [assumption|]. now apply limitCheck_listed.
Qed.

(** ** The brown list *)

Lemma brownList_sessionCheck_other t0 now ip' ip rl :
  ip' <> ip ->
  brownList (sessionCheck cfg t0 now ip' rl).1.2 !! ip = brownList rl !! ip.
Proof.
  intros Hne. unfold sessionCheck, sessionWindow.
  destruct (brownList rl !! ip') as [e|]; [destruct (t0 <? e)|]; cbn;
    try reflexivity;
    match goal with |- context [overLimit ?c ?w] => destruct (overLimit c w) end;
    cbn; rewrite ?lookup_insert_ne, ?lookup_delete_ne by assumption; reflexivity.
Qed.

Lemma brownList_limitCheck now ip rl :
  brownList (limitCheck cfg now ip rl).1.2 = brownList rl.
Proof.
  unfold limitCheck. destruct (blackListed rl ip); [reflexivity|]. cbn zeta.
  now destruct (overLimit cfg (window cfg now (history rl ip))).
Qed.

Lemma brownList_step o ip e rl :
  sessionBefore ip e o ->
  brownList rl !! ip = Some e -> brownList (step cfg o rl).1 !! ip = Some e.
Proof.
  intros Hs Hb. destruct o as [ip' t0 now|ip' now|nowOf|ip' ch d]; cbn in *.
  - destruct (decide (ip' = ip)) as [->|Hne].
    + now rewrite (sessionCheck_held t0 now ip rl e Hb (Hs eq_refl)).
    + pose proof (brownList_sessionCheck_other t0 now ip' ip rl Hne) as E.
      destruct (sessionCheck cfg t0 now ip' rl) as [[ok rl'] evs]. cbn in *.
      now rewrite E.
  - pose proof (brownList_limitCheck now ip' rl) as E.
    destruct (limitCheck cfg now ip' rl) as [[ok rl'] evs]. cbn in *.
    now rewrite E.
  - assumption.
  - assumption.
Qed.

Lemma brownList_run ops : forall ip e rl,
  Forall (sessionBefore ip e) ops ->
  brownList rl !! ip = Some e -> brownList (run cfg ops rl) !! ip = Some e.
Proof.
  induction ops as [|o ops IH]; intros ip e rl Hs Hb; cbn; [assumption|].
  inversion Hs; subst. apply IH; [assumption|]. now apply brownList_step.
Qed.

Lemma timed_startTimer start ip ch d tr :
  timed start (startTimer ip ch d) tr ->
  exists t1 t2, start + d <= t1 /\ t1 <= t2
                /\ tr = [(t1, EvSleep d); (t2, EvSend ch ip)].
Proof.
  unfold startTimer. intros Ht.
  inversion Ht as [|? t1 ? ? tr1 H1 Ht1]; subst.
  inversion Ht1 as [|? t2 ? ? tr2 H2 Ht2]; subst.
  inversion Ht2; subst.
  exists t1, t2. repeat split; lia.
Qed.

Lemma prune_Forall (P : Z -> Prop) cutoff ts :
  Forall P ts -> Forall P (prune cutoff ts).
Proof.
  intros HP. apply List.Forall_forall. intros t Ht.
  apply List.filter_In in Ht. rewrite List.Forall_forall in HP. now apply HP.
Qed.

(** A call that gets past the brown list with a window over the limit. *)
Lemma sessionCheck_trigger t0 now ip rl :
  (forall e, brownList rl !! ip = Some e -> e <= t0) ->
  overLimit cfg (window cfg now (history rl ip)) = true ->
  exists rl1,
    sessionCheck cfg t0 now ip rl =
      (false, rl1,
       [EvLock; EvSend blacklistCh ip;
        EvGo ip unblockCh (brownListedDuration cfg); EvUnlock])
    /\ brownList rl1 !! ip = Some (now + brownListedDuration cfg)
    /\ history rl1 ip = window cfg now (history rl ip).
Proof.
  intros Hfree Ho. destruct (brownList rl !! ip) as [e|] eqn:Hb.
  - rewrite (sessionCheck_expired t0 now ip rl e Hb (Hfree e eq_refl)).
    rewrite sessionWindow_block by exact Ho.
    eexists. split; [reflexivity|]. cbn. split.
    + now rewrite lookup_insert_eq.
    + unfold history at 1. cbn. now rewrite lookup_insert_eq.
  - rewrite (sessionCheck_free t0 now ip rl Hb).
    rewrite sessionWindow_block by exact Ho.
    eexists. split; [reflexivity|]. cbn. split.
    + now rewrite lookup_insert_eq.
    + unfold history at 1. cbn. now rewrite lookup_insert_eq.
Qed.

(** A call at or after the expiry of the entry: the entry is deleted and the
    window decides. *)
Lemma sessionCheck_after t0 now ip rl e :
  brownList rl !! ip = Some e -> e <= t0 ->
  (sessionCheck cfg t0 now ip rl).1.1
    = negb (overLimit cfg (window cfg now (history rl ip)))
  /\ brownList (sessionCheck cfg t0 now ip rl).1.2 !! ip
    = (if overLimit cfg (window cfg now (history rl ip))
       then Some (now + brownListedDuration cfg) else None)
  /\ history (sessionCheck cfg t0 now ip rl).1.2 ip = window cfg now (history rl ip).
Proof.
  intros Hb Ht. rewrite (sessionCheck_expired t0 now ip rl e Hb Ht).
  set (rlD := {| requests := requests rl; blackList := blackList rl;
                 brownList := delete ip (brownList rl) |}).
  change (history rl ip) with (history rlD ip).
  destruct (overLimit cfg (window cfg now (history rlD ip))) eqn:Ho.
  - rewrite (sessionWindow_block _ _ _ Ho). cbn. split; [reflexivity|]. split.
    + now rewrite lookup_insert_eq.
    + unfold history at 1. cbn. now rewrite lookup_insert_eq.
  - rewrite (sessionWindow_admit _ _ _ Ho). cbn. split; [reflexivity|]. split.
    + now rewrite lookup_delete_eq.
    + unfold history at 1. cbn. now rewrite lookup_insert_eq.
Qed.

(** C2.  A call of [sessionCheck] that gets past the brown list and finds the
    pruned window over the limit is turned down, records the expiry
    [now + brownListedDuration] for the address, sends the address on the
    block channel and starts one timer.  From then on, whatever else runs,
    every call of [sessionCheck] for the address that reads the clock before
    the expiry is turned down and changes nothing.  A call that reads the
    clock at or after the expiry is decided by the window alone, and is let in
    when nothing else was recorded for the address in between (the tracking
    duration being no longer than the brown-list duration).  The timer, which
    starts no earlier than the instant of the triggering request, sends on the
    unblock channel exactly once, at or after the expiry. *)
Theorem brownlist_cycle ip rl t0 now :
  (forall e, brownList rl !! ip = Some e -> e <= t0) ->
  overLimit cfg (window cfg now (history rl ip)) = true ->
  (sessionCheck cfg t0 now ip rl).1.1 = false
  /\ brownList (sessionCheck cfg t0 now ip rl).1.2 !! ip
     = Some (now + brownListedDuration cfg)
  /\ (sessionCheck cfg t0 now ip rl).2
     = [EvLock; EvSend blacklistCh ip;
        EvGo ip unblockCh (brownListedDuration cfg); EvUnlock]
  /\ (forall ops t0' now',
        Forall (sessionBefore ip (now + brownListedDuration cfg)) ops ->
        t0' < now + brownListedDuration cfg ->
        sessionCheck cfg t0' now' ip (run cfg ops (sessionCheck cfg t0 now ip rl).1.2)
          = (false, run cfg ops (sessionCheck cfg t0 now ip rl).1.2, [EvLock; EvUnlock]))
  /\ (forall ops t0' now',
        Forall (sessionBefore ip (now + brownListedDuration cfg)) ops ->
        now + brownListedDuration cfg <= t0' ->
        (sessionCheck cfg t0' now' ip
           (run cfg ops (sessionCheck cfg t0 now ip rl).1.2)).1.1
          = negb (overLimit cfg
                    (window cfg now'
                       (history (run cfg ops (sessionCheck cfg t0 now ip rl).1.2) ip))))
  /\ (forall t0' now',
        now + brownListedDuration cfg <= t0' -> t0' <= now' ->
        forallb (fun t => t <=? now) (history rl ip) = true ->
        0 < trackingDuration cfg <= brownListedDuration cfg ->
        1 <= rateLimit cfg ->
        (sessionCheck cfg t0' now' ip (sessionCheck cfg t0 now ip rl).1.2).1.1 = true)
  /\ (forall start tr,
        now <= start ->
        timed start (startTimer ip unblockCh (brownListedDuration cfg)) tr ->
        exists t', now + brownListedDuration cfg <= t'
                   /\ sendsOn unblockCh tr = [(t', ip)]).
Proof.
  intros Hfree Ho.
  destruct (sessionCheck_trigger t0 now ip rl Hfree Ho) as (rl1 & E & Hb1 & Hh1).
  rewrite E. cbn [fst snd].
  split; [reflexivity|]. split; [assumption|]. split; [reflexivity|].
  split; [|split; [|split]].
  - intros ops t0' now' Hops Ht.
    apply (sessionCheck_held t0' now' ip _ (now + brownListedDuration cfg));
      [|assumption].
    now apply brownList_run.
  - intros ops t0' now' Hops Ht.
    eapply sessionCheck_after; [|eassumption].
    now apply brownList_run.
  - intros t0' now' Ht Hn Hold [Htd Hbd] Hrl.
    destruct (sessionCheck_after t0' now' ip rl1 _ Hb1 Ht) as (-> & _ & _).
    rewrite Hh1. unfold window at 1. rewrite prune_app.
    rewrite (cutoff_minus now') by lia.
    rewrite (prune_none _ (window cfg now (history rl ip))).
    + unfold prune. cbn. rewrite (proj2 (Z.ltb_lt _ _)) by lia.
      unfold overLimit. cbn. now rewrite (proj2 (Z.ltb_ge _ _)) by lia.
    + unfold window. apply prune_Forall. apply Forall_app. split.
      * rewrite forallb_forall in Hold. apply List.Forall_forall.
        intros t Hin. specialize (Hold t Hin). lia.
      * constructor; [lia|constructor].
  - intros start tr Hst Htm.
    destruct (timed_startTimer _ _ _ _ _ Htm) as (t1 & t2 & H1 & H2 & ->).
    exists t2. split; [lia|]. reflexivity.
Qed.

(** C10.  A timer changes nothing in the rate limiter: all it does is sleep
    and send on its channel.  The entry of an address on the brown list is
    removed by [sessionCheck] itself, in the first call for the address that
    reads the clock at or after the recorded expiry: the entry is deleted and
    the window is evaluated on the state without it.  When that window is
    within the limit the call is let in and the address is on the brown list
    no more; when it is over the limit, the address is listed anew. *)
Theorem brownlist_cleared_by_check ip rl e t0 now :
  brownList rl !! ip = Some e ->
  e <= t0 ->
  (forall ip' ch d rl0, step cfg (OpTimer ip' ch d) rl0 = (rl0, [EvSleep d; EvSend ch ip']))
  /\ sessionCheck cfg t0 now ip rl
     = withLock (sessionWindow cfg now ip
                   {| requests := requests rl; blackList := blackList rl;
                      brownList := delete ip (brownList rl) |})
  /\ (overLimit cfg (window cfg now (history rl ip)) = false ->
      (sessionCheck cfg t0 now ip rl).1.1 = true
      /\ brownList (sessionCheck cfg t0 now ip rl).1.2 !! ip = None)
  /\ (overLimit cfg (window cfg now (history rl ip)) = true ->
      (sessionCheck cfg t0 now ip rl).1.1 = false
      /\ brownList (sessionCheck cfg t0 now ip rl).1.2 !! ip
         = Some (now + brownListedDuration cfg)).
Proof.
  intros Hb Ht. split; [reflexivity|]. split; [now apply (sessionCheck_expired _ _ _ _ e)|].
  destruct (sessionCheck_after t0 now ip rl e Hb Ht) as (H1 & H2 & _).
  split; intros Ho; rewrite Ho in *; cbn in *; auto.
Qed.

(** ** Sends and the mutex *)

(** C7, as the code has it.  Both checks take the mutex first and release it
    last, and whatever they send, they send in between: when the window is
    over the limit the address goes out on the block channel while the mutex
    is held, and the unlock comes after the send.  The send is the blocking
    one of an unbuffered channel: the goroutine cannot move until a receiver
    is there.  The unblock signal is sent by the timer goroutine, which never
    takes the mutex. *)
Theorem emission_under_lock ip t0 now rl :
  (exists mid, (sessionCheck cfg t0 now ip rl).2 = EvLock :: mid ++ [EvUnlock]
               /\ lockFree mid = true)
  /\ (exists mid, (limitCheck cfg now ip rl).2 = EvLock :: mid ++ [EvUnlock]
                  /\ lockFree mid = true)
  /\ heldAtSends false (sessionCheck cfg t0 now ip rl).2 = true
  /\ heldAtSends false (limitCheck cfg now ip rl).2 = true
  /\ (blackListed rl ip = false ->
      overLimit cfg (window cfg now (history rl ip)) = true ->
      (limitCheck cfg now ip rl).2 = [EvLock; EvSend blacklistCh ip; EvUnlock])
  /\ ((forall e, brownList rl !! ip = Some e -> e <= t0) ->
      overLimit cfg (window cfg now (history rl ip)) = true ->
      (sessionCheck cfg t0 now ip rl).2
        = [EvLock; EvSend blacklistCh ip;
           EvGo ip unblockCh (brownListedDuration cfg); EvUnlock])
  /\ (forall ready σ i c a rest,
        threads σ !! i = Some (EvSend c a :: rest) ->
        ready c = false -> stepThread ready σ i = None)
  /\ (forall d, lockFree (startTimer ip unblockCh d) = true).
Proof.
  assert (HS : exists mid, (sessionCheck cfg t0 now ip rl).2 = EvLock :: mid ++ [EvUnlock]
                           /\ lockFree mid = true
                           /\ heldAtSends true (mid ++ [EvUnlock]) = true).
  { unfold sessionCheck, sessionWindow.
    destruct (brownList rl !! ip) as [e|]; [destruct (t0 <? e)|]; cbn;
      try (exists []; now cbn);
      match goal with |- context [overLimit ?c ?w] => destruct (overLimit c w) end;
      cbn;
      first [ exists []; now cbn
            | exists [EvSend blacklistCh ip;
                      EvGo ip unblockCh (brownListedDuration cfg)]; now cbn ]. }
  assert (HL : exists mid, (limitCheck cfg now ip rl).2 = EvLock :: mid ++ [EvUnlock]
                           /\ lockFree mid = true
                           /\ heldAtSends true (mid ++ [EvUnlock]) = true).
  { unfold limitCheck. destruct (blackListed rl ip); cbn;
      try (exists []; now cbn).
    destruct (overLimit cfg (window cfg now (history rl ip))); cbn;
      first [ exists []; now cbn | exists [EvSend blacklistCh ip]; now cbn ]. }
  destruct HS as (midS & ES & FS & AS), HL as (midL & EL & FL & AL).
  split; [eauto|]. split; [eauto|].
  split; [now rewrite ES|]. split; [now rewrite EL|].
  split; [|split; [|split]].
  - intros Hb Ho. now rewrite (limitCheck_block _ _ _ Hb Ho).
  - intros Hfree Ho.
    destruct (sessionCheck_trigger t0 now ip rl Hfree Ho) as (rl1 & E & _).
    now rewrite E.
  - intros ready σ i c a rest Hth Hr. unfold stepThread. now rewrite Hth, Hr.
  - reflexivity.
Qed.

End LimiterFacts.

(** ** The scenarios of the specification, under the defaults *)

Section LimiterScenarios.
Import Limiter Sched.

(** Twenty-one requests of [clientA] without session header within four
    seconds: twenty let in, the last turned down.  With the last one an hour
    after the others instead, all twenty-one are let in, and the history is
    down to that one instant. *)
Lemma limitCheck_threshold_defaults :
  (admissions defaults clientA (map plain (burst ++ [4 * second])) newRateLimiter).1
    = repeat true 20 ++ [false]
  /\ (admissions defaults clientA (map plain (burst ++ [3600 * second]))
        newRateLimiter).1 = repeat true 20 ++ [true]
  /\ history (admissions defaults clientA (map plain (burst ++ [3600 * second]))
                newRateLimiter).2 clientA = [3600 * second].
Proof.
  assert (H : blackListed newRateLimiter clientA = false
              /\ history newRateLimiter clientA = []
              /\ rateLimit defaults = Z.of_nat 20
              /\ length burst = 20%nat
              /\ withinb (5 * second) (burst ++ [4 * second]) = true
              /\ 5 * second < trackingDuration defaults)
    by (repeat split; vm_compute; reflexivity).
  destruct H as (H1 & H2 & H3 & H4 & H5 & H6).
  destruct (limitCheck_threshold defaults clientA newRateLimiter 20 burst
              (4 * second) (5 * second) H1 H2 H3 H4 H5 H6)
    as (_ & _ & Hburst & _ & _ & Hlate).
  split; [exact Hburst|].
  apply (Hlate (3600 * second)); [repeat constructor|].
  intros x Hx.
  assert (Hold : forallb (fun x => x + trackingDuration defaults <=? 3600 * second)
                         burst = true) by (vm_compute; reflexivity).
  rewrite forallb_forall in Hold. specialize (Hold x Hx). now apply Z.leb_le.
Defined.

(** Twenty requests, half of them with a session header, then one more of
    either kind: the last is turned down. *)
Lemma shared_history_defaults :
  (admissions defaults clientA (mixed ++ [("s1", 4 * second, 4 * second)])
     newRateLimiter).1 = repeat true 20 ++ [false]
  /\ (admissions defaults clientA (mixed ++ [plain (4 * second)])
        newRateLimiter).1 = repeat true 20 ++ [false].
Proof.
  split.
  - refine (proj2 (shared_history defaults clientA newRateLimiter 20 mixed
                     ("s1", 4 * second, 4 * second) (5 * second) _ _ _ _ _ _ _));
      vm_compute; reflexivity.
  - refine (proj2 (shared_history defaults clientA newRateLimiter 20 mixed
                     (plain (4 * second)) (5 * second) _ _ _ _ _ _ _));
      vm_compute; reflexivity.
Defined.

(** The twenty-first plain request of [clientA] blacklists it; a sweep, a
    session request and a timer later, and a minute later, it is still turned
    down. *)
Lemma blacklist_terminal_defaults :
  blackListed busy clientA = false
  /\ (limitCheck defaults (64 * second) clientA
        (run defaults
           [OpCleanUp (fun _ => 30 * second);
            OpSession clientA (31 * second) (31 * second);
            OpTimer clientA unblockCh (25 * second)]
           (limitCheck defaults (4 * second) clientA busy).1.2)).1.1 = false.
Proof.
  split; [reflexivity|].
  pose proof (blacklist_terminal defaults clientA busy (4 * second)
                eq_refl eq_refl) as (_ & _ & H).
  destruct (H [OpCleanUp (fun _ => 30 * second);
               OpSession clientA (31 * second) (31 * second);
               OpTimer clientA unblockCh (25 * second)] (64 * second)) as [_ E].
  now rewrite E.
Defined.

(** The twenty-first request of [clientA], with a session header, at second
    4: it is turned down and so is a request at second 10; a request at
    second 29, the expiry, is let in. *)
Lemma brownlist_cycle_defaults :
  (sessionCheck defaults (4 * second) (4 * second) clientA busy).1.1 = false
  /\ (sessionCheck defaults (10 * second) (10 * second) clientA
        (sessionCheck defaults (4 * second) (4 * second) clientA busy).1.2).1.1 = false
  /\ (sessionCheck defaults (29 * second) (29 * second) clientA
        (sessionCheck defaults (4 * second) (4 * second) clientA busy).1.2).1.1 = true.
Proof.
  assert (Hfree : forall e, brownList busy !! clientA = Some e -> e <= 4 * second)
    by (intros e He; vm_compute in He; discriminate).
  pose proof (brownlist_cycle defaults clientA busy (4 * second) (4 * second)
                Hfree eq_refl) as (A & _ & _ & B & _ & C & _).
  split; [exact A|]. split.
  - pose proof (B [] (10 * second) (10 * second) ltac:(constructor) eq_refl) as E.
    cbn [run] in E. now rewrite E.
  - apply C.
    + vm_compute; discriminate.
    + vm_compute; discriminate.
    + vm_compute; reflexivity.
    + split; vm_compute; [reflexivity|discriminate].
    + vm_compute; discriminate.
Defined.

(** [clientA] is on the brown list until second 25 and asks again at second
    25: the request is let in and the entry is gone. *)
Lemma brownlist_cleared_defaults :
  brownList browned !! clientA = Some (25 * second)
  /\ (sessionCheck defaults (25 * second) (25 * second) clientA browned).1.1 = true
  /\ brownList (sessionCheck defaults (25 * second) (25 * second) clientA browned).1.2
       !! clientA = None.
Proof.
  split; [reflexivity|].
  assert (Hle : 25 * second <= 25 * second) by (vm_compute; discriminate).
  pose proof (brownlist_cleared_by_check defaults clientA browned (25 * second)
                (25 * second) (25 * second) eq_refl Hle) as (_ & _ & H & _).
  exact (H eq_refl).
Defined.

(** C7 fails as stated.  Nobody receives on the block channel; [clientA]
    sends its twenty-first request and [clientB] its first.  Once the first
    goroutine has taken the mutex it waits at its send, the second waits for
    the mutex, and nothing can move. *)
Lemma emission_can_deadlock :
  exists σ,
    runSched (fun _ => false)
      {| holder := None;
         threads := [(limitCheck defaults (4 * second) clientA busy).2;
                     (limitCheck defaults (4 * second) clientB busy).2] |}
      [0%nat] = Some σ
    /\ deadlocked (fun _ => false) σ.
Proof.
  eexists. split; [vm_compute; reflexivity|]. split.
  - intros [|[|i]]; reflexivity.
  - exists 0%nat. eexists. eexists. reflexivity.
Qed.

End LimiterScenarios.

(** * Properties of the load balancer *)

Section PoolFacts.
Import LoadB.
Context {S : Type} `{Server S}.

Lemma wrap64_small z : - 2 ^ 63 <= z < 2 ^ 63 -> wrap64 z = z.
Proof. intros Hz. unfold wrap64. rewrite Z.mod_small; lia. Qed.

(** ** Round robin *)

Lemma serverAt_In servers count p : serverAt servers count = Ret p -> In p servers.
Proof.
  unfold serverAt. destruct servers as [|q servers]; [discriminate|].
  destruct (_ <? 0); [discriminate|].
  destruct (_ !! _) as [p'|] eqn:E; [|discriminate].
  intros [= <-]. apply list_elem_of_In. eapply list_elem_of_lookup_2. exact E.
Qed.

(** With every backend of the pool down, the loop of
    [GetNextAvailableServer] never comes to its [return]. *)
Lemma probe_all_down heap servers :
  (forall p, In p servers -> aliveb heap p = false) ->
  forall fuel count server r,
    In server servers -> probe fuel heap servers count server <> Ret r.
Proof.
  intros Hdown. induction fuel as [|fuel IH]; intros count server r Hin; cbn.
  - specialize (Hdown server Hin). unfold aliveb, deref in *.
    destruct (heap !! server); cbn; [rewrite Hdown|]; discriminate.
  - pose proof (Hdown server Hin) as Hd. unfold aliveb, deref in *.
    destruct (heap !! server); cbn; [rewrite Hd|discriminate].
    destruct (serverAt servers (wrap64 (count + 1))) as [p'| |] eqn:E; cbn;
      try discriminate.
    apply IH. eapply serverAt_In. exact E.
Qed.

Lemma GetNextAvailableServer_all_down heap lb fuel r :
  (forall p, In p (Servers lb) -> aliveb heap p = false) ->
  GetNextAvailableServer fuel heap lb <> Ret r.
Proof.
  intros Hdown. unfold GetNextAvailableServer.
  destruct (serverAt (Servers lb) (RoundRobinCount lb)) as [p| |] eqn:E; cbn;
    try discriminate.
  pose proof (probe_all_down heap (Servers lb) Hdown fuel (RoundRobinCount lb) p) as Hp.
  destruct (probe fuel heap (Servers lb) (RoundRobinCount lb) p) as [[c q]| |]; cbn;
    try discriminate.
  exfalso. eapply Hp; [|reflexivity]. eapply serverAt_In. exact E.
Qed.

Lemma probe_alive fuel heap servers count server :
  aliveb heap server = true ->
  probe fuel heap servers count server = Ret (count, server).
Proof.
  unfold aliveb. intros Ha.
  destruct fuel; cbn; unfold deref; destruct (heap !! server); try discriminate;
    cbn; now rewrite Ha.
Qed.

(** The loop stops at the first cursor value, counted from where it starts,
    whose backend is alive, after one iteration for each backend it found
    down on the way. *)
Lemma probe_finds heap servers p : forall (k fuel : nat) count server,
  (k <= fuel)%nat ->
  - 2 ^ 63 <= count -> count + Z.of_nat k < 2 ^ 63 ->
  serverAt servers count = Ret server ->
  (forall j : nat, (j < k)%nat ->
     exists q, serverAt servers (count + Z.of_nat j) = Ret q
               /\ is_Some (heap !! q) /\ aliveb heap q = false) ->
  serverAt servers (count + Z.of_nat k) = Ret p ->
  aliveb heap p = true ->
  probe fuel heap servers count server = Ret (count + Z.of_nat k, p).
Proof.
  induction k as [|k IH]; intros fuel count server Hk Hlo Hhi Hat Hdown Hp Ha.
  - rewrite Z.add_0_r in *. rewrite Hat in Hp. injection Hp as ->.
    now apply probe_alive.
  - destruct fuel as [|fuel]; [lia|].
    destruct (Hdown 0%nat ltac:(lia)) as (q & Hq & [s Hs] & Hd).
    rewrite Z.add_0_r, Hat in Hq. injection Hq as <-.
    unfold aliveb in Hd. rewrite Hs in Hd.
    cbn. unfold deref. rewrite Hs. cbn. rewrite Hd.
    rewrite wrap64_small by lia.
    assert (Hnext : exists server', serverAt servers (count + 1) = Ret server').
    { destruct k as [|k].
      - exists p. now rewrite <- Hp.
      - destruct (Hdown 1%nat ltac:(lia)) as (q & Hq & _). now exists q. }
    destruct Hnext as [server' Hnext]. rewrite Hnext. cbn.
    rewrite (IH fuel (count + 1) server'); try lia; try assumption.
    + f_equal. f_equal. lia.
    + intros j Hj. destruct (Hdown (Datatypes.S j) ltac:(lia)) as (q & Hq & Hrest).
      exists q. split; [|assumption]. rewrite <- Hq. f_equal. lia.
    + rewrite <- Hp. f_equal. lia.
Qed.

(** With a backend alive [k] places after the cursor and none before it,
    [GetNextAvailableServer] returns that backend after [k] iterations and
    leaves the cursor one past it. *)
Lemma GetNextAvailableServer_next_alive heap lb p (k fuel : nat) :
  (k <= fuel)%nat ->
  0 <= RoundRobinCount lb -> RoundRobinCount lb + Z.of_nat k + 1 < 2 ^ 63 ->
  (forall j : nat, (j < k)%nat ->
     exists q, serverAt (Servers lb) (RoundRobinCount lb + Z.of_nat j) = Ret q
               /\ is_Some (heap !! q) /\ aliveb heap q = false) ->
  serverAt (Servers lb) (RoundRobinCount lb + Z.of_nat k) = Ret p ->
  aliveb heap p = true ->
  GetNextAvailableServer fuel heap lb
    = Ret (setCount lb (RoundRobinCount lb + Z.of_nat k + 1), p).
Proof.
  intros Hk Hlo Hhi Hdown Hp Ha. unfold GetNextAvailableServer.
  assert (Hfirst : exists server, serverAt (Servers lb) (RoundRobinCount lb) = Ret server).
  { destruct k as [|k].
    - exists p. rewrite <- Hp. f_equal. lia.
    - destruct (Hdown 0%nat ltac:(lia)) as (q & Hq & _). exists q.
      rewrite <- Hq. f_equal. lia. }
  destruct Hfirst as [server Hfirst]. rewrite Hfirst. cbn.
  rewrite (probe_finds heap (Servers lb) p k fuel (RoundRobinCount lb) server);
    try assumption; try lia.
  cbn. now rewrite wrap64_small by lia.
Qed.

Lemma serverAt_total servers count :
  servers <> [] -> 0 <= count ->
  exists q, serverAt servers count = Ret q
            /\ servers !! Z.to_nat (count mod Z.of_nat (length servers)) = Some q.
Proof.
  intros Hne Hc. unfold serverAt. destruct servers as [|q0 rest]; [contradiction|].
  set (n := Z.of_nat (length (q0 :: rest))).
  assert (Hn : 0 < n) by (unfold n; cbn [length]; lia).
  rewrite Z.rem_mod_nonneg by assumption.
  pose proof (Z.mod_pos_bound count n Hn) as Hb.
  rewrite (proj2 (Z.ltb_ge _ _)) by lia.
  destruct (lookup_lt_is_Some_2 (q0 :: rest) (Z.to_nat (count mod n))) as [q Hq];
    [unfold n in *; lia|].
  exists q. now rewrite Hq.
Qed.

Lemma least_true (P : nat -> bool) : forall K : nat,
  P K = true ->
  exists k : nat, (k <= K)%nat /\ P k = true /\ forall j : nat, (j < k)%nat -> P j = false.
Proof.
  intros K. revert P. induction K as [|K IH]; intros P HK.
  - exists 0%nat. split; [lia|]. split; [assumption|]. intros j Hj. lia.
  - destruct (P 0%nat) eqn:H0.
    + exists 0%nat. split; [lia|]. split; [assumption|]. intros j Hj. lia.
    + destruct (IH (fun j => P (Datatypes.S j)) HK) as (k & Hk & Hpk & Hlt).
      exists (Datatypes.S k). split; [lia|]. split; [assumption|].
      intros [|j] Hj; [assumption|]. apply Hlt. lia.
Qed.

(** In a pool of allocated backends of which one at least is alive,
    [GetNextAvailableServer] returns after fewer iterations than the pool has
    backends: it returns the first alive backend at or after the cursor, in
    the order of the list taken cyclically, and moves the cursor one past
    it. *)
Lemma GetNextAvailableServer_returns heap lb (fuel i : nat) p :
  Forall (fun q => is_Some (heap !! q)) (Servers lb) ->
  0 <= RoundRobinCount lb ->
  RoundRobinCount lb + Z.of_nat (length (Servers lb)) < 2 ^ 63 ->
  Servers lb !! i = Some p -> aliveb heap p = true ->
  (length (Servers lb) <= fuel)%nat ->
  exists (k : nat) p',
    (k < length (Servers lb))%nat
    /\ aliveAt heap (Servers lb) (RoundRobinCount lb + Z.of_nat k) = true
    /\ (forall j : nat, (j < k)%nat ->
          aliveAt heap (Servers lb) (RoundRobinCount lb + Z.of_nat j) = false)
    /\ serverAt (Servers lb) (RoundRobinCount lb + Z.of_nat k) = Ret p'
    /\ GetNextAvailableServer fuel heap lb
       = Ret (setCount lb (RoundRobinCount lb + Z.of_nat k + 1), p').
Proof.
  intros Hwf Hlo Hhi Hi Ha Hfuel.
  set (servers := Servers lb) in *. set (count := RoundRobinCount lb) in *.
  set (n := Z.of_nat (length servers)).
  assert (Hilt : (i < length servers)%nat) by (eapply lookup_lt_Some; exact Hi).
  assert (Hne : servers <> []) by (intros E; rewrite E in Hilt; cbn in Hilt; lia).
  assert (Hn : 0 < n) by (unfold n; lia).
  set (K := Z.to_nat ((Z.of_nat i - count) mod n)).
  pose proof (Z.mod_pos_bound (Z.of_nat i - count) n Hn) as HKb.
  assert (HK : aliveAt heap servers (count + Z.of_nat K) = true).
  { unfold aliveAt.
    destruct (serverAt_total servers (count + Z.of_nat K) Hne ltac:(lia))
      as (q & -> & Hq).
    fold n in Hq. unfold K in Hq. rewrite Z2Nat.id in Hq by lia.
    rewrite Zplus_mod_idemp_r in Hq.
    replace (count + (Z.of_nat i - count)) with (Z.of_nat i) in Hq by lia.
    rewrite Z.mod_small in Hq by (unfold n; lia).
    rewrite Nat2Z.id, Hi in Hq. injection Hq as <-. assumption. }
  destruct (least_true (fun j => aliveAt heap servers (count + Z.of_nat j)) K HK)
    as (k & Hk & Hpk & Hlt).
  assert (HkK : (k < length servers)%nat) by (unfold K, n in *; lia).
  destruct (serverAt_total servers (count + Z.of_nat k) Hne ltac:(lia))
    as (p' & Hp' & _).
  exists k, p'. split; [assumption|]. split; [assumption|]. split; [assumption|].
  split; [assumption|].
  apply GetNextAvailableServer_next_alive; try assumption; try lia.
  - intros j Hj.
    destruct (serverAt_total servers (count + Z.of_nat j) Hne ltac:(lia))
      as (q & Hq & Hq').
    exists q. split; [assumption|]. split.
    + rewrite List.Forall_forall in Hwf. apply Hwf.
      apply list_elem_of_In. eapply list_elem_of_lookup_2. exact Hq'.
    + specialize (Hlt j Hj). unfold aliveAt in Hlt. now rewrite Hq in Hlt.
  - unfold aliveAt in Hpk. now rewrite Hp' in Hpk.
Qed.

(** ** Least connections *)

(** The loop of [GetLeastConnServer], entered with [sel] selected: what it
    returns is alive, has no more connections than [sel] and than any alive
    backend still to visit, and is either [sel] itself or a backend with
    fewer connections than [sel] and than every alive backend visited before
    it. *)
Lemma leastConn_spec heap : forall servers sel,
  Forall (fun p => is_Some (heap !! p)) servers ->
  (forall q, sel = Some q -> aliveb heap q = true) ->
  exists r, leastConn heap servers sel = Ret r /\
    match r with
    | None => sel = None /\ forall q, In q servers -> aliveb heap q = false
    | Some p =>
        aliveb heap p = true
        /\ (forall q, sel = Some q -> conn heap p <= conn heap q)
        /\ (forall q, In q servers -> aliveb heap q = true -> conn heap p <= conn heap q)
        /\ (sel = Some p
            \/ exists i, servers !! i = Some p
                 /\ (forall q, sel = Some q -> conn heap p < conn heap q)
                 /\ forall j q, (j < i)%nat -> servers !! j = Some q ->
                                aliveb heap q = true -> conn heap p < conn heap q)
    end.
Proof.
  induction servers as [|p rest IH]; intros sel Hwf Hsel.
  - exists sel. split; [reflexivity|]. destruct sel as [q|].
    + split; [now apply Hsel|]. split; [intros ? [= <-]; lia|].
      split; [intros ? []|now left].
    + split; [reflexivity|intros ? []].
  - inversion Hwf as [|? ? [s Hs] Hwf']; subst.
    assert (Ha : aliveb heap p = IsAlive s) by (unfold aliveb; now rewrite Hs).
    assert (Hc : conn heap p = ActiveConn s) by (unfold conn; now rewrite Hs).
    cbn [leastConn]. unfold deref at 1. rewrite Hs. cbn [bind].
    destruct (IsAlive s) eqn:Hal; cbn [negb].
    + (* the backend is alive *)
      assert (Hnext : forall sel',
                ((sel' = Some p /\ forall q, sel = Some q -> conn heap p < conn heap q)
                 \/ (sel' = sel /\ exists q, sel = Some q
                                           /\ conn heap q <= conn heap p)) ->
                exists r, leastConn heap rest sel' = Ret r /\
                  match r with
                  | None => sel = None
                            /\ forall q, In q (p :: rest) -> aliveb heap q = false
                  | Some p' =>
                      aliveb heap p' = true
                      /\ (forall q, sel = Some q -> conn heap p' <= conn heap q)
                      /\ (forall q, In q (p :: rest) -> aliveb heap q = true ->
                                    conn heap p' <= conn heap q)
                      /\ (sel = Some p'
                          \/ exists i, (p :: rest) !! i = Some p'
                               /\ (forall q, sel = Some q -> conn heap p' < conn heap q)
                               /\ forall j q, (j < i)%nat -> (p :: rest) !! j = Some q ->
                                    aliveb heap q = true -> conn heap p' < conn heap q)
                  end).
      { intros sel' Hsel'.
        destruct (IH sel' Hwf') as (r & Er & Hr).
        { intros q Hq. destruct Hsel' as [[E _]|[E _]]; rewrite E in Hq.
          - injection Hq as <-. congruence.
          - now apply Hsel. }
        exists r. split; [assumption|].
        destruct r as [p'|].
        - destruct Hr as (Hp' & Hle & Hmem & Hpos).
          assert (Hp : conn heap p' <= conn heap p).
          { destruct Hsel' as [[-> _]|[-> (q & Eq & Hq)]].
            - now apply Hle.
            - specialize (Hle q Eq). lia. }
          split; [assumption|]. split.
          { intros q Eq. destruct Hsel' as [[-> Hstrict]|[-> _]]; [|now apply Hle].
            specialize (Hstrict q Eq). lia. }
          split.
          { intros q [<-|Hin] Hq; [assumption|now apply Hmem]. }
          destruct Hpos as [->|(i & Hi & Hlt & Hbefore)].
          + destruct Hsel' as [[[= ->] Hstrict]|[Heq _]]; [|now left].
            right. exists 0%nat. split; [reflexivity|]. split.
            * assumption.
            * intros j q Hj. lia.
          + right. exists (Datatypes.S i). split; [exact Hi|]. split.
            * intros q Eq. destruct Hsel' as [[-> Hstrict]|[-> _]]; [|now apply Hlt].
              specialize (Hstrict q Eq). specialize (Hlt p eq_refl). lia.
            * intros [|j] q Hj Hq Hqa.
              -- cbn in Hq. injection Hq as <-.
                 destruct Hsel' as [[-> _]|[-> (q0 & Eq0 & Hq0)]].
                 ++ now apply Hlt.
                 ++ specialize (Hlt q0 Eq0). lia.
              -- apply (Hbefore j q); [lia|exact Hq|assumption].
        - destruct Hr as [-> _]. destruct Hsel' as [[[=] _]|[<- (q & [=] & _)]]. }
      destruct sel as [q0|].
      * assert (Hq0 : aliveb heap q0 = true) by now apply Hsel.
        unfold aliveb in Hq0. destruct (heap !! q0) as [s0|] eqn:Hs0; [|discriminate].
        assert (Hc0 : conn heap q0 = ActiveConn s0) by (unfold conn; now rewrite Hs0).
        unfold deref. rewrite Hs0. cbn [bind].
        destruct (ActiveConn s <? ActiveConn s0) eqn:Hcmp.
        -- apply Hnext. left. split; [reflexivity|].
           intros q [= <-]. apply Z.ltb_lt in Hcmp. lia.
        -- apply Hnext. right. split; [reflexivity|].
           exists q0. split; [reflexivity|]. apply Z.ltb_ge in Hcmp. lia.
      * apply Hnext. left. split; [reflexivity|]. intros q [=].
    + (* the backend is down: it is skipped *)
      destruct (IH sel Hwf' Hsel) as (r & Er & Hr).
      exists r. split; [assumption|].
      destruct r as [p'|].
      * destruct Hr as (Hp' & Hle & Hmem & Hpos).
        split; [assumption|]. split; [assumption|]. split.
        { intros q [<-|Hin] Hq; [congruence|now apply Hmem]. }
        destruct Hpos as [->|(i & Hi & Hlt & Hbefore)]; [now left|].
        right. exists (Datatypes.S i). split; [exact Hi|]. split; [assumption|].
        intros [|j] q Hj Hq Hqa.
        -- cbn in Hq. injection Hq as <-. congruence.
        -- apply (Hbefore j q); [lia|exact Hq|assumption].
      * destruct Hr as [-> Hall]. split; [reflexivity|].
        intros q [<-|Hin]; [congruence|now apply Hall].
Qed.

(** C6.  In a pool whose backends are all allocated, [GetLeastConnServer]
    returns.  When it returns a backend, that backend is alive, no alive
    backend of the pool has fewer active connections, and every alive backend
    listed before it has strictly more: ties go to the earliest.  When no
    backend is alive it returns [nil], which is no backend at all. *)
Theorem GetLeastConnServer_min heap lb :
  Forall (fun p => is_Some (heap !! p)) (Servers lb) ->
  exists r, GetLeastConnServer heap lb = Ret r /\
    match r with
    | Some p =>
        exists i, Servers lb !! i = Some p /\ aliveb heap p = true
          /\ forall j q, Servers lb !! j = Some q -> aliveb heap q = true ->
               conn heap p <= conn heap q
               /\ ((j < i)%nat -> conn heap p < conn heap q)
    | None => forall q, In q (Servers lb) -> aliveb heap q = false
    end.
Proof.
  intros Hwf. unfold GetLeastConnServer.
  destruct (leastConn_spec heap (Servers lb) None Hwf) as (r & Er & Hr);
    [intros q [=]|].
  exists r. split; [assumption|]. destruct r as [p|].
  - destruct Hr as (Hp & _ & Hmem & [[=]|(i & Hi & _ & Hbefore)]).
    exists i. split; [assumption|]. split; [assumption|].
    intros j q Hq Hqa. split.
    + apply Hmem; [|assumption].
      apply list_elem_of_In. eapply list_elem_of_lookup_2. exact Hq.
    + intros Hj. now apply (Hbefore j q).
  - now destruct Hr.
Qed.

(** ** Sessions *)

Lemma GetNextAvailableServer_table fuel heap lb lb' p :
  GetNextAvailableServer fuel heap lb = Ret (lb', p) ->
  SessionTable lb' = SessionTable lb /\ Algorithm lb' = Algorithm lb
  /\ Servers lb' = Servers lb.
Proof.
  unfold GetNextAvailableServer.
  destruct (serverAt _ _) as [q| |]; cbn; try discriminate.
  destruct (probe _ _ _ _ _) as [[c q']| |]; cbn; try discriminate.
  intros [= <- <-]. auto.
Qed.

Lemma pickTarget_bound fuel sessionID heap lb b :
  sessionID <> "" -> SessionTable lb !! sessionID = Some b ->
  pickTarget fuel sessionID heap lb = Ret (lb, Some b).
Proof.
  intros Hid Hb. unfold pickTarget. rewrite bool_decide_eq_true_2 by assumption.
  now rewrite Hb.
Qed.

Lemma pickTarget_fresh fuel sessionID heap lb :
  sessionID <> "" -> SessionTable lb !! sessionID = None ->
  pickTarget fuel sessionID heap lb =
    (do '(lb', p) <- GetNextAvailableServer fuel heap lb ;
     Ret (bindSession lb' sessionID p, Some p)).
Proof.
  intros Hid Hb. unfold pickTarget. rewrite bool_decide_eq_true_2 by assumption.
  now rewrite Hb.
Qed.

(** Whatever request is served, a binding of the table stays as it is, and a
    request that carries the bound token gets the bound backend. *)
Lemma pickTarget_table fuel sessionID heap lb lb' target T b :
  T <> "" -> SessionTable lb !! T = Some b ->
  pickTarget fuel sessionID heap lb = Ret (lb', target) ->
  SessionTable lb' !! T = Some b /\ (sessionID = T -> target = Some b).
Proof.
  intros HT Hb. unfold pickTarget. case_bool_decide as Hid.
  - destruct (SessionTable lb !! sessionID) as [p|] eqn:Hp.
    + intros [= <- <-]. split; [assumption|]. intros ->. congruence.
    + destruct (GetNextAvailableServer fuel heap lb) as [[lb1 p]| |] eqn:E; cbn;
        try discriminate.
      intros [= <- <-]. apply GetNextAvailableServer_table in E as (E & _).
      cbn. rewrite E. split; [|intros ->; congruence].
      rewrite lookup_insert_ne; [assumption|]. intros ->. congruence.
  - case_bool_decide.
    + destruct (GetLeastConnServer heap lb); cbn; try discriminate.
      intros [= <- <-]. split; [assumption|]. intros ->. now destruct Hid.
    + case_bool_decide.
      * destruct (GetNextAvailableServer fuel heap lb) as [[lb1 p]| |] eqn:E; cbn;
          try discriminate.
        intros [= <- <-]. apply GetNextAvailableServer_table in E as (E & _).
        rewrite E. split; [assumption|]. intros ->. now destruct Hid.
      * intros [= <- <-]. split; [assumption|]. intros ->. now destruct Hid.
Qed.

Lemma ServeProxy_target fuel sessionID heap lb lb' heap' p calls :
  ServeProxy fuel sessionID heap lb = Ret (lb', heap', p, calls) ->
  pickTarget fuel sessionID heap lb = Ret (lb', Some p)
  /\ calls = [CallInc p; CallAddress p; CallServe p].
Proof.
  unfold ServeProxy.
  destruct (pickTarget fuel sessionID heap lb) as [[lb1 [q|]]| |]; cbn;
    try discriminate.
  destruct (deref heap q) as [s| |]; cbn; try discriminate.
  destruct (deref _ q) as [s1| |]; cbn; try discriminate.
  intros [= <- <- <- <-]. auto.
Qed.

Lemma serveAll_table fuel T b : forall sessionIDs heap lb lb' heap' targets,
  T <> "" -> SessionTable lb !! T = Some b ->
  serveAll fuel sessionIDs heap lb = Ret (lb', heap', targets) ->
  SessionTable lb' !! T = Some b
  /\ forall i, sessionIDs !! i = Some T -> targets !! i = Some b.
Proof.
  induction sessionIDs as [|sid rest IH]; intros heap lb lb' heap' targets HT Hb; cbn.
  - intros [= <- <- <-]. split; [assumption|]. intros i. now rewrite lookup_nil.
  - destruct (ServeProxy fuel sid heap lb) as [[[[lb1 heap1] p] calls]| |] eqn:E; cbn;
      try discriminate.
    destruct (serveAll fuel rest heap1 lb1) as [[[lb2 heap2] ps]| |] eqn:E2; cbn;
      try discriminate.
    intros [= <- <- <-].
    apply ServeProxy_target in E as (E & _).
    destruct (pickTarget_table _ _ _ _ _ _ T b HT Hb E) as (Hb1 & Hp).
    destruct (IH _ _ _ _ _ HT Hb1 E2) as (Hb2 & Hps).
    split; [assumption|]. intros [|i]; cbn.
    + intros [= ->]. specialize (Hp eq_refl). congruence.
    + apply Hps.
Qed.

(** C5, as the code has it.  A request whose session token is in the table
    gets the bound backend, whatever the algorithm of the pool.  A request
    whose token is not in the table gets its backend from
    [GetNextAvailableServer], round robin, and this too whatever the
    algorithm; the token is bound to that backend in the table the call
    leaves.  Once bound, the token stays bound to the same backend through any
    later requests, and each of them that carries the token gets that
    backend. *)
Theorem session_sticky fuel T heap lb :
  T <> "" ->
  (forall b, SessionTable lb !! T = Some b ->
     pickTarget fuel T heap lb = Ret (lb, Some b)
     /\ (is_Some (heap !! b) ->
         exists heap', ServeProxy fuel T heap lb
                       = Ret (lb, heap', b, [CallInc b; CallAddress b; CallServe b])))
  /\ (SessionTable lb !! T = None ->
      pickTarget fuel T heap lb =
        (do '(lb', p) <- GetNextAvailableServer fuel heap lb ;
         Ret (bindSession lb' T p, Some p)))
  /\ (forall lb' heap' p calls,
        ServeProxy fuel T heap lb = Ret (lb', heap', p, calls) ->
        SessionTable lb' !! T = Some p)
  /\ (forall b sessionIDs lb' heap' targets,
        SessionTable lb !! T = Some b ->
        serveAll fuel sessionIDs heap lb = Ret (lb', heap', targets) ->
        SessionTable lb' !! T = Some b
        /\ forall i, sessionIDs !! i = Some T -> targets !! i = Some b).
Proof.
  intros HT. split; [|split; [|split]].
  - intros b Hb. split; [now apply pickTarget_bound|].
    intros [s Hs]. unfold ServeProxy.
    rewrite (pickTarget_bound fuel T heap lb b HT Hb). cbn.
    unfold deref. rewrite Hs. cbn.
    rewrite list_lookup_insert_eq by (eapply lookup_lt_Some; exact Hs). cbn.
    eexists. reflexivity.
  - now apply pickTarget_fresh.
  - intros lb' heap' p calls E. apply ServeProxy_target in E as (E & _).
    destruct (SessionTable lb !! T) as [b|] eqn:Hb.
    + rewrite (pickTarget_bound fuel T heap lb b HT Hb) in E.
      injection E as <- <-. assumption.
    + rewrite (pickTarget_fresh fuel T heap lb HT Hb) in E.
      destruct (GetNextAvailableServer fuel heap lb) as [[lb1 q]| |]; cbn in E;
        try discriminate.
      injection E as <- <-. cbn. now rewrite lookup_insert_eq.
  - intros b sessionIDs lb' heap' targets Hb E.
    now apply (serveAll_table fuel T b sessionIDs heap lb lb' heap' targets).
Qed.

End PoolFacts.

(** ** The pools of the specification *)

Section PoolScenarios.
Import LoadB.

Lemma probe_down fuel : forall count,
  probe fuel downHeap [0%nat] count 0%nat = Spin.
Proof.
  induction fuel as [|fuel IH]; intros count; [reflexivity|].
  cbn [probe]. change (deref downHeap 0%nat) with (Ret (A := ProbeServer)
    {| probeAddr := "http://a"; probeAlive := false; probeConn := 0 |}).
  cbn [bind IsAlive ProbeServer_Server probeAlive].
  unfold serverAt. cbn [length Z.of_nat Pos.of_succ_nat]. rewrite Z.rem_1_r.
  cbn [Z.ltb Z.compare Z.to_nat lookup list_lookup bind]. apply IH.
Qed.

(** C4, at a pool whose only backend is down: round-robin selection is still
    in its loop after any number of iterations.  It never returns and never
    fails. *)
Theorem GetNextAvailableServer_spins fuel :
  GetNextAvailableServer fuel downHeap downPool = Spin.
Proof.
  unfold GetNextAvailableServer, downPool, NewLoadbalancer.
  cbn [Servers RoundRobinCount]. change (serverAt [0%nat] 0) with (Ret (A := ptr) 0%nat).
  cbn [bind]. now rewrite probe_down.
Qed.

(** Counts 2, 0, 1: the second backend.  Counts 1, 0, 0: the second again,
    the earlier of the two that tie.  A pool with nothing alive: [nil]. *)
Example GetLeastConnServer_abc : GetLeastConnServer abcHeap abcPool = Ret (Some 1%nat).
Proof. reflexivity. Qed.

Example GetLeastConnServer_tie : GetLeastConnServer tieHeap abcPool = Ret (Some 1%nat).
Proof. reflexivity. Qed.

Example GetLeastConnServer_down : GetLeastConnServer downHeap downPool = Ret None.
Proof. reflexivity. Qed.

Lemma GetLeastConnServer_min_abc :
  exists r, GetLeastConnServer abcHeap abcPool = Ret r /\ r = Some 1%nat.
Proof.
  assert (Hwf : Forall (fun p => is_Some (abcHeap !! p)) (Servers abcPool))
    by (repeat constructor; eexists; reflexivity).
  destruct (GetLeastConnServer_min abcHeap abcPool Hwf) as (r & E & _).
  exists r. split; [exact E|]. vm_compute in E. congruence.
Defined.

(** C5 fails as stated.  The pool is set to least connections and the
    backends have 2, 0 and 1 connections; least connections picks the second.
    A request with a session token that is not in the table is given the
    first, the one under the round-robin cursor. *)
Lemma session_ignores_policy :
  Algorithm abcPool = "lc"
  /\ SessionTable abcPool !! "s1" = None
  /\ GetLeastConnServer abcHeap abcPool = Ret (Some 1%nat)
  /\ pickTarget 0 "s1" abcHeap abcPool = Ret (boundPool, Some 0%nat).
Proof. repeat split; vm_compute; reflexivity. Qed.

(** The token [s1] is bound to the first backend; of four later requests the
    second and the fourth carry it, and both get the first backend. *)
Lemma session_sticky_abc :
  exists lb' heap' targets,
    serveAll 0 [""; "s1"; ""; "s1"] abcHeap boundPool = Ret (lb', heap', targets)
    /\ SessionTable lb' !! "s1" = Some 0%nat
    /\ targets !! 1%nat = Some 0%nat /\ targets !! 3%nat = Some 0%nat.
Proof.
  assert (HT : "s1" <> "") by discriminate.
  destruct (session_sticky 0 "s1" abcHeap boundPool HT) as (_ & _ & _ & H).
  do 3 eexists. split; [vm_compute; reflexivity|].
  match goal with |- SessionTable ?lb !! _ = _ /\ ?ts !! _ = _ /\ _ =>
    destruct (H 0%nat [""; "s1"; ""; "s1"] lb _ ts eq_refl eq_refl) as (H1 & H2)
  end.
  split; [exact H1|]. split; apply H2; reflexivity.
Defined.

(** C8, at a pool of one fresh backend under least connections: a request is
    served, [IncActiveConn], [Address] and [Serve] are called and
    [DecActiveConn] is not,
    and the counter that was 0 before the request is 1 after it. *)
Theorem ServeProxy_leaves_counter_raised :
  conn oneHeap 0%nat = 0
  /\ ServeProxy 0 "" oneHeap onePool
     = Ret (onePool, [{| addr := "http://a"; activeConn := 1 |}], 0%nat,
            [CallInc 0%nat; CallAddress 0%nat; CallServe 0%nat])
  /\ conn [{| addr := "http://a"; activeConn := 1 |}] 0%nat = 1.
Proof. repeat split; vm_compute; reflexivity. Qed.

End PoolScenarios.

(** * Further properties of the rate limiter *)

Section LimiterCoverage.
Import Limiter Sched Gateway.

Variable cfg : Config.

(** ** Verdicts and events of the two checks *)

Lemma limitCheck_verdict now ip rl :
  (limitCheck cfg now ip rl).1.1
    = negb (blackListed rl ip)
      && negb (overLimit cfg (window cfg now (history rl ip)))
  /\ (limitCheck cfg now ip rl).2
     = EvLock :: (if negb (blackListed rl ip)
                     && overLimit cfg (window cfg now (history rl ip))
                  then [EvSend blacklistCh ip] else []) ++ [EvUnlock].
Proof.
  destruct (blackListed rl ip) eqn:Hb.
  - now rewrite (limitCheck_listed cfg now ip rl Hb).
  - destruct (overLimit cfg (window cfg now (history rl ip))) eqn:Ho.
    + now rewrite (limitCheck_block cfg now ip rl Hb Ho).
    + now rewrite (limitCheck_admit cfg now ip rl Hb Ho).
Qed.

Lemma sessionCheck_verdict t0 now ip rl :
  (sessionCheck cfg t0 now ip rl).1.1
    = negb (held rl ip t0)
      && negb (overLimit cfg (window cfg now (history rl ip)))
  /\ (sessionCheck cfg t0 now ip rl).2
     = EvLock :: (if negb (held rl ip t0)
                     && overLimit cfg (window cfg now (history rl ip))
                  then [EvSend blacklistCh ip;
                        EvGo ip unblockCh (brownListedDuration cfg)]
                  else []) ++ [EvUnlock].
Proof.
  unfold held. destruct (brownList rl !! ip) as [e|] eqn:Hb.
  - destruct (t0 <? e) eqn:Ht.
    + apply Z.ltb_lt in Ht. now rewrite (sessionCheck_held cfg t0 now ip rl e Hb Ht).
    + apply Z.ltb_ge in Ht. rewrite (sessionCheck_expired cfg t0 now ip rl e Hb Ht).
      set (rlD := {| requests := requests rl; blackList := blackList rl;
                     brownList := delete ip (brownList rl) |}).
      change (history rl ip) with (history rlD ip).
      destruct (overLimit cfg (window cfg now (history rlD ip))) eqn:Ho.
      * now rewrite (sessionWindow_block cfg now ip rlD Ho).
      * now rewrite (sessionWindow_admit cfg now ip rlD Ho).
  - rewrite (sessionCheck_free cfg t0 now ip rl Hb).
    destruct (overLimit cfg (window cfg now (history rl ip))) eqn:Ho.
    + now rewrite (sessionWindow_block cfg now ip rl Ho).
    + now rewrite (sessionWindow_admit cfg now ip rl Ho).
Qed.

Lemma admission_verdict sessionID t0 now ip rl1 rl2 :
  blackListed rl1 ip = blackListed rl2 ip ->
  brownList rl1 !! ip = brownList rl2 !! ip ->
  window cfg now (history rl1 ip) = window cfg now (history rl2 ip) ->
  (admission cfg sessionID t0 now ip rl1).1.1 = (admission cfg sessionID t0 now ip rl2).1.1
  /\ (admission cfg sessionID t0 now ip rl1).2 = (admission cfg sessionID t0 now ip rl2).2.
Proof.
  intros Hbl Hbr Hw. unfold admission. case_bool_decide.
  - destruct (sessionCheck_verdict t0 now ip rl1) as [-> ->].
    destruct (sessionCheck_verdict t0 now ip rl2) as [-> ->].
    unfold held. now rewrite Hbr, Hw.
  - destruct (limitCheck_verdict now ip rl1) as [-> ->].
    destruct (limitCheck_verdict now ip rl2) as [-> ->].
    now rewrite Hbl, Hw.
Qed.

(** ** The sweep *)

Lemma prune_prune c1 c2 ts : c1 <= c2 -> prune c2 (prune c1 ts) = prune c2 ts.
Proof.
  intros Hc. unfold prune. induction ts as [|t ts IH]; [reflexivity|]. cbn.
  destruct (c1 <? t) eqn:H1; cbn; rewrite IH; [reflexivity|].
  apply Z.ltb_ge in H1. now rewrite (proj2 (Z.ltb_ge c2 t)) by lia.
Qed.

Lemma history_cleanUp nowOf ip rl :
  history (cleanUp cfg nowOf rl).1 ip
    = prune (cutoff cfg (nowOf ip)) (history rl ip).
Proof.
  unfold history, cleanUp. cbn. rewrite map_lookup_imap.
  now destruct (requests rl !! ip).
Qed.

(** A round of [cleanUp] drops no address from [requests], not even one whose
    history it empties; of each history it keeps, in order, exactly the
    instants after the cutoff read for that address, [now.Add(-trackingDuration)]
    at the clock reading taken for it; and it leaves the two block lists
    alone. *)
Theorem cleanUp_keeps_every_address nowOf rl :
  (forall ip, is_Some (requests (cleanUp cfg nowOf rl).1 !! ip)
              <-> is_Some (requests rl !! ip))
  /\ (forall ip, history (cleanUp cfg nowOf rl).1 ip
                 = prune (cutoff cfg (nowOf ip)) (history rl ip))
  /\ (forall ip t, In t (history (cleanUp cfg nowOf rl).1 ip)
                   <-> In t (history rl ip) /\ cutoff cfg (nowOf ip) < t)
  /\ blackList (cleanUp cfg nowOf rl).1 = blackList rl
  /\ brownList (cleanUp cfg nowOf rl).1 = brownList rl.
Proof.
  split; [|split; [|split; [|split]]]; try reflexivity.
  - intros ip. unfold cleanUp. cbn. rewrite map_lookup_imap.
    destruct (requests rl !! ip); cbn; split; intros [x Hx]; eauto; discriminate.
  - intros ip. apply history_cleanUp.
  - intros ip t. rewrite history_cleanUp. unfold prune.
    rewrite List.filter_In, Z.ltb_lt. tauto.
Qed.

(** A round of [cleanUp] changes nothing to what a later check decides: when
    the check reads the clock no earlier than the sweep did for the address,
    it gives the same verdict, performs the same events and stores the same
    window as it would have without the sweep. *)
Theorem cleanUp_transparent nowOf sessionID t0 now ip rl :
  nowOf ip <= now ->
  window cfg now (history (cleanUp cfg nowOf rl).1 ip) = window cfg now (history rl ip)
  /\ (admission cfg sessionID t0 now ip (cleanUp cfg nowOf rl).1).1.1
     = (admission cfg sessionID t0 now ip rl).1.1
  /\ (admission cfg sessionID t0 now ip (cleanUp cfg nowOf rl).1).2
     = (admission cfg sessionID t0 now ip rl).2.
Proof.
  intros Hle.
  assert (Hw : window cfg now (history (cleanUp cfg nowOf rl).1 ip)
               = window cfg now (history rl ip)).
  { rewrite history_cleanUp. unfold window. rewrite !prune_app.
    now rewrite prune_prune by (unfold cutoff; lia). }
  split; [assumption|]. now apply admission_verdict.
Qed.

(** ** One address and the others *)

Lemma limitCheck_other now ip' ip rl :
  ip' <> ip ->
  requests (limitCheck cfg now ip' rl).1.2 !! ip = requests rl !! ip
  /\ blackList (limitCheck cfg now ip' rl).1.2 !! ip = blackList rl !! ip.
Proof.
  intros Hne. unfold limitCheck. destruct (blackListed rl ip'); [easy|]. cbn zeta.
  destruct (overLimit cfg (window cfg now (history rl ip'))); cbn;
    rewrite ?lookup_insert_ne by assumption; easy.
Qed.

Lemma requests_sessionCheck_other t0 now ip' ip rl :
  ip' <> ip ->
  requests (sessionCheck cfg t0 now ip' rl).1.2 !! ip = requests rl !! ip.
Proof.
  intros Hne. unfold sessionCheck, sessionWindow.
  destruct (brownList rl !! ip') as [e|]; [destruct (t0 <? e)|]; cbn;
    try reflexivity;
    match goal with |- context [overLimit ?c ?w] => destruct (overLimit c w) end;
    cbn; rewrite ?lookup_insert_ne by assumption; reflexivity.
Qed.

Lemma step_foreign o ip rl :
  foreign ip o = true ->
  requests (step cfg o rl).1 !! ip = requests rl !! ip
  /\ blackList (step cfg o rl).1 !! ip = blackList rl !! ip
  /\ brownList (step cfg o rl).1 !! ip = brownList rl !! ip.
Proof.
  destruct o as [ip' t0 now|ip' now|nowOf|ip' ch d]; cbn; intros Hf;
    try discriminate; try easy.
  - apply bool_decide_eq_true in Hf.
    pose proof (requests_sessionCheck_other t0 now ip' ip rl Hf) as E1.
    pose proof (blackList_sessionCheck cfg t0 now ip' rl) as E2.
    pose proof (brownList_sessionCheck_other cfg t0 now ip' ip rl Hf) as E3.
    destruct (sessionCheck cfg t0 now ip' rl) as [[ok rl'] evs]. cbn in *.
    now rewrite E1, E2, E3.
  - apply bool_decide_eq_true in Hf.
    destruct (limitCheck_other now ip' ip rl Hf) as [E1 E2].
    pose proof (brownList_limitCheck cfg now ip' rl) as E3.
    destruct (limitCheck cfg now ip' rl) as [[ok rl'] evs]. cbn in *.
    now rewrite E1, E2, E3.
Qed.

Lemma run_foreign ops : forall ip rl,
  forallb (foreign ip) ops = true ->
  requests (run cfg ops rl) !! ip = requests rl !! ip
  /\ blackList (run cfg ops rl) !! ip = blackList rl !! ip
  /\ brownList (run cfg ops rl) !! ip = brownList rl !! ip.
Proof.
  induction ops as [|o ops IH]; intros ip rl Hf; cbn in *; [easy|].
  apply andb_true_iff in Hf as [Ho Hops].
  destruct (IH ip (step cfg o rl).1 Hops) as (-> & -> & ->).
  now apply step_foreign.
Qed.

(** Checks for other addresses, and timers, in any number and order, leave
    what is recorded for an address as it was, its history and its entries on
    the two block lists, and so change nothing to the verdict and the events
    of its next check. *)
Theorem addresses_are_independent ip ops rl :
  forallb (foreign ip) ops = true ->
  history (run cfg ops rl) ip = history rl ip
  /\ blackList (run cfg ops rl) !! ip = blackList rl !! ip
  /\ brownList (run cfg ops rl) !! ip = brownList rl !! ip
  /\ forall sessionID t0 now,
       (admission cfg sessionID t0 now ip (run cfg ops rl)).1.1
         = (admission cfg sessionID t0 now ip rl).1.1
       /\ (admission cfg sessionID t0 now ip (run cfg ops rl)).2
          = (admission cfg sessionID t0 now ip rl).2.
Proof.
  intros Hf. destruct (run_foreign ops ip rl Hf) as (E1 & E2 & E3).
  assert (Hh : history (run cfg ops rl) ip = history rl ip)
    by (unfold history; now rewrite E1).
  split; [assumption|]. split; [assumption|]. split; [assumption|].
  intros sessionID t0 now. apply admission_verdict.
  - unfold blackListed. now rewrite E2.
  - assumption.
  - now rewrite Hh.
Qed.

(** ** The two block lists *)

(** The two paths do not look at each other's block list.  [sessionCheck]
    never reads the blacklist: an address on it that comes with a session
    header is let in when the brown list does not hold it and its window is
    within the limit.  [limitCheck] never reads the brown list: an address
    held by it that comes without session header is let in when it is off the
    blacklist and its window is within the limit. *)
Theorem block_lists_do_not_cross ip rl t0 now :
  (forall bl,
     (sessionCheck cfg t0 now ip
        {| requests := requests rl; blackList := bl; brownList := brownList rl |}).1.1
     = (sessionCheck cfg t0 now ip rl).1.1)
  /\ (forall br,
        (limitCheck cfg now ip
           {| requests := requests rl; blackList := blackList rl; brownList := br |}).1.1
        = (limitCheck cfg now ip rl).1.1)
  /\ (blackListed rl ip = true -> held rl ip t0 = false ->
      overLimit cfg (window cfg now (history rl ip)) = false ->
      (sessionCheck cfg t0 now ip rl).1.1 = true)
  /\ (held rl ip t0 = true -> blackListed rl ip = false ->
      overLimit cfg (window cfg now (history rl ip)) = false ->
      (limitCheck cfg now ip rl).1.1 = true).
Proof.
  split; [|split; [|split]].
  - intros bl. now rewrite !(proj1 (sessionCheck_verdict _ _ _ _)).
  - intros br. now rewrite !(proj1 (limitCheck_verdict _ _ _)).
  - intros _ Hh Ho. rewrite (proj1 (sessionCheck_verdict _ _ _ _)). now rewrite Hh, Ho.
  - intros _ Hb Ho. rewrite (proj1 (limitCheck_verdict _ _ _)). now rewrite Hb, Ho.
Qed.

(** ** Block signals *)

Lemma blockSends_app ip evs1 evs2 :
  blockSends ip (evs1 ++ evs2) = (blockSends ip evs1 + blockSends ip evs2)%nat.
Proof. unfold blockSends. now rewrite List.filter_app, length_app. Qed.

(** What one operation sends for [ip] on the block channel, and what it does
    to the blacklist entry of [ip]: nothing, unless it is the call of
    [limitCheck] that blacklists [ip]. *)
Lemma step_blockSends o ip rl :
  offSession ip o = true ->
  (blockSends ip (step cfg o rl).2 = 0%nat
   /\ blackListed (step cfg o rl).1 ip = blackListed rl ip)
  \/ (blockSends ip (step cfg o rl).2 = 1%nat
      /\ blackListed rl ip = false /\ blackListed (step cfg o rl).1 ip = true).
Proof.
  destruct o as [ip' t0 now|ip' now|nowOf|ip' ch d]; cbn; intros Hf.
  - apply bool_decide_eq_true in Hf. left.
    pose proof (blackList_sessionCheck cfg t0 now ip' rl) as E2.
    destruct (sessionCheck_verdict t0 now ip' rl) as [_ E].
    destruct (sessionCheck cfg t0 now ip' rl) as [[ok rl'] evs]. cbn in *.
    split; [|unfold blackListed; now rewrite E2].
    rewrite E. unfold blockSends.
    destruct (_ && _); cbn; repeat case_bool_decide; simplify_eq; done.
  - destruct (decide (ip' = ip)) as [->|Hne].
    + destruct (blackListed rl ip) eqn:Hb.
      * left. rewrite (limitCheck_listed cfg now ip rl Hb). cbn.
        split; [|assumption]. unfold blockSends. cbn.
        repeat case_bool_decide; simplify_eq; done.
      * destruct (overLimit cfg (window cfg now (history rl ip))) eqn:Ho.
        -- right. rewrite (limitCheck_block cfg now ip rl Hb Ho). cbn.
           unfold blockSends, blackListed. cbn.
           rewrite lookup_insert_eq.
           repeat case_bool_decide; simplify_eq; done.
        -- left. rewrite (limitCheck_admit cfg now ip rl Hb Ho). cbn.
           split; [|assumption]. unfold blockSends. cbn.
           repeat case_bool_decide; simplify_eq; done.
    + left. destruct (limitCheck_other now ip' ip rl Hne) as [_ E2].
      destruct (limitCheck_verdict now ip' rl) as [_ E].
      destruct (limitCheck cfg now ip' rl) as [[ok rl'] evs]. cbn in *.
      split; [|unfold blackListed; now rewrite E2].
      rewrite E. unfold blockSends.
      destruct (_ && _); cbn; repeat case_bool_decide; simplify_eq; done.
  - left. split; [|reflexivity]. unfold blockSends. cbn.
    repeat case_bool_decide; simplify_eq; done.
  - left. apply bool_decide_eq_true in Hf. subst ch. split; [|reflexivity].
    unfold blockSends. cbn. repeat case_bool_decide; simplify_eq; done.
Qed.

(** Over any run in which [sessionCheck] is not called for it, an address is
    sent on the block channel at most once: never when it is on the blacklist
    at the start, and when it is sent, it is on the blacklist at the end. *)
Theorem one_block_signal ip ops : forall rl,
  forallb (offSession ip) ops = true ->
  (blockSends ip (trace cfg ops rl) <= 1)%nat
  /\ (blackListed rl ip = true -> blockSends ip (trace cfg ops rl) = 0%nat)
  /\ (blockSends ip (trace cfg ops rl) = 1%nat ->
      blackListed (run cfg ops rl) ip = true).
Proof.
  induction ops as [|o ops IH]; intros rl Hf; cbn [trace run].
  - unfold blockSends. cbn. split; [lia|]. split; [reflexivity|]. lia.
  - cbn [forallb] in Hf. apply andb_true_iff in Hf as [Ho Hops].
    destruct (IH (step cfg o rl).1 Hops) as (IH1 & IH2 & IH3).
    rewrite blockSends_app.
    destruct (step_blockSends o ip rl Ho) as [[E Hb]|(E & Hb & Hb')]; rewrite E.
    + rewrite Hb in IH2. split; [lia|]. split; [intros Hl; rewrite IH2; auto|].
      cbn [Nat.add]. exact IH3.
    + rewrite (IH2 Hb'). split; [lia|]. split; [congruence|].
      intros _. now apply blackListed_run.
Qed.

Lemma timerStarts_app ip evs1 evs2 :
  timerStarts cfg ip (evs1 ++ evs2)
  = (timerStarts cfg ip evs1 + timerStarts cfg ip evs2)%nat.
Proof. unfold timerStarts. now rewrite List.filter_app, length_app. Qed.

Lemma step_timerStarts o ip rl :
  offLimit ip o = true ->
  blockSends ip (step cfg o rl).2 = timerStarts cfg ip (step cfg o rl).2.
Proof.
  destruct o as [ip' t0 now|ip' now|nowOf|ip' ch d]; cbn; intros Hf.
  - destruct (sessionCheck_verdict t0 now ip' rl) as [_ E].
    destruct (sessionCheck cfg t0 now ip' rl) as [[ok rl'] evs]. cbn in *.
    rewrite E. unfold blockSends, timerStarts.
    destruct (_ && _); cbn; repeat case_bool_decide; simplify_eq; done.
  - apply bool_decide_eq_true in Hf.
    destruct (limitCheck_verdict now ip' rl) as [_ E].
    destruct (limitCheck cfg now ip' rl) as [[ok rl'] evs]. cbn in *.
    rewrite E. unfold blockSends, timerStarts.
    destruct (_ && _); cbn; repeat case_bool_decide; simplify_eq; done.
  - unfold blockSends, timerStarts. cbn. repeat case_bool_decide; simplify_eq; done.
  - apply bool_decide_eq_true in Hf. subst ch.
    unfold blockSends, timerStarts. cbn. repeat case_bool_decide; simplify_eq; done.
Qed.

(** Over any run in which [limitCheck] is not called for it, an address is
    sent on the block channel exactly as many times as a timer is started
    for it: every brown-listing comes with its one timer, and no timer is
    started without one. *)
Theorem timers_match_block_signals ip ops : forall rl,
  forallb (offLimit ip) ops = true ->
  blockSends ip (trace cfg ops rl) = timerStarts cfg ip (trace cfg ops rl).
Proof.
  induction ops as [|o ops IH]; intros rl Hf; cbn [trace]; [reflexivity|].
  cbn [forallb] in Hf. apply andb_true_iff in Hf as [Ho Hops].
  rewrite blockSends_app, timerStarts_app, (IH _ Hops).
  now rewrite (step_timerStarts o ip rl Ho).
Qed.

(** ** A client that keeps its distance *)

Lemma spacedb_cons gap t ts :
  spacedb gap (t :: ts) = true
  <-> (forall u, In u ts -> t + gap <= u) /\ spacedb gap ts = true.
Proof.
  cbn. rewrite andb_true_iff, forallb_forall.
  split; intros [H1 H2]; (split; [|assumption]); intros u Hu;
    specialize (H1 u Hu); lia.
Qed.

Lemma spacedb_filter_app gap (f : Z -> bool) ts us :
  spacedb gap (ts ++ us) = true -> spacedb gap (List.filter f ts ++ us) = true.
Proof.
  induction ts as [|t ts IH]; [easy|].
  rewrite <- app_comm_cons, spacedb_cons. intros [H1 H2]. cbn.
  destruct (f t); [|now apply IH].
  rewrite <- app_comm_cons, spacedb_cons. split; [|now apply IH].
  intros u Hu. apply H1. apply in_app_or in Hu as [Hu|Hu]; apply in_or_app.
  - left. now apply List.filter_In in Hu.
  - now right.
Qed.

Lemma spacedb_app_l gap ts us : spacedb gap (ts ++ us) = true -> spacedb gap ts = true.
Proof.
  induction ts as [|t ts IH]; [easy|].
  rewrite <- app_comm_cons, !spacedb_cons. intros [H1 H2]. split; [|now apply IH].
  intros u Hu. apply H1. apply in_or_app. now left.
Qed.

Lemma spacedb_last_max gap ts t u :
  0 <= gap -> spacedb gap (ts ++ [t]) = true -> In u (ts ++ [t]) -> u <= t.
Proof.
  intros Hg. induction ts as [|a ts IH]; cbn [app].
  - intros _ [<-|[]]. lia.
  - rewrite spacedb_cons. intros [H1 H2] [<-|Hu]; [|now apply IH].
    assert (Ht : In t (ts ++ [t])) by (apply in_or_app; right; now left).
    specialize (H1 t Ht). lia.
Qed.

(** Instants that keep a distance of [gap] and lie in an interval no longer
    than [n] times [gap] are at most [n]. *)
Lemma spacedb_count gap : forall ts lo hi (n : nat),
  0 < gap -> spacedb gap ts = true ->
  (forall t, In t ts -> lo < t <= hi) ->
  hi - lo <= Z.of_nat n * gap ->
  (length ts <= n)%nat.
Proof.
  induction ts as [|a ts IH]; intros lo hi n Hg Hs Hin Hn; cbn; [lia|].
  apply spacedb_cons in Hs as [H1 H2].
  pose proof (Hin a (or_introl eq_refl)) as Ha.
  destruct n as [|n]; [cbn in Hn; lia|].
  apply le_n_S. apply (IH (lo + gap) hi n); try assumption.
  - intros t Ht. specialize (H1 t Ht). specialize (Hin t (or_intror Ht)). lia.
  - lia.
Qed.

Lemma admissions_spaced ip gap (N : nat) reqs : forall rl,
  blackListed rl ip = false ->
  brownList rl !! ip = None ->
  rateLimit cfg = Z.of_nat N ->
  0 < gap ->
  - 2 ^ 63 < trackingDuration cfg ->
  trackingDuration cfg <= Z.of_nat N * gap ->
  spacedb gap (history rl ip ++ map stamp reqs) = true ->
  (admissions cfg ip reqs rl).1 = repeat true (length reqs).
Proof.
  induction reqs as [|[[sid t0] now] reqs IH]; intros rl Hb Hs HN Hg Hmin Htd Hsp;
    [reflexivity|].
  cbn [map stamp snd] in Hsp.
  change (history rl ip ++ now :: map stamp reqs)
    with (history rl ip ++ [now] ++ map stamp reqs) in Hsp.
  rewrite app_assoc in Hsp.
  assert (Hw : spacedb gap (window cfg now (history rl ip) ++ map stamp reqs) = true)
    by (unfold window, prune; now apply spacedb_filter_app).
  assert (Ho : overLimit cfg (window cfg now (history rl ip)) = false).
  { unfold overLimit. apply Z.ltb_ge. rewrite HN. apply inj_le.
    apply (spacedb_count gap _ (now - trackingDuration cfg) now N);
      [assumption|eapply spacedb_app_l; exact Hw| |lia].
    intros t Ht. unfold window, prune in Ht.
    apply List.filter_In in Ht as [Ht Hlt]. apply Z.ltb_lt in Hlt.
    rewrite cutoff_minus in Hlt by assumption.
    split; [assumption|].
    apply (spacedb_last_max gap (history rl ip) now t); [lia| |assumption].
    eapply spacedb_app_l. exact Hsp. }
  cbn [admissions].
  rewrite (admission_admit cfg sid t0 now ip rl Hb (or_introl Hs) Ho).
  specialize (IH (admitted cfg now ip rl)).
  rewrite history_admitted in IH.
  specialize (IH Hb Hs HN Hg Hmin Htd Hw).
  destruct (admissions cfg ip reqs (admitted cfg now ip rl)) as [oks rl2].
  cbn in *. now rewrite IH.
Qed.

(** A client that leaves at least [gap] between any two of its requests,
    where [rateLimit] gaps make up the tracking duration or more, is never
    turned down, however many requests it sends and whichever path they
    take: the window never holds more than [rateLimit] instants.  The
    tracking duration is any but the smallest 64-bit value, whose negation
    is itself and with which nothing is ever pruned. *)
Theorem steady_client_admitted ip gap (N : nat) reqs rl :
  blackListed rl ip = false ->
  brownList rl !! ip = None ->
  history rl ip = [] ->
  rateLimit cfg = Z.of_nat N ->
  0 < gap ->
  - 2 ^ 63 < trackingDuration cfg ->
  trackingDuration cfg <= Z.of_nat N * gap ->
  spacedb gap (map stamp reqs) = true ->
  (admissions cfg ip reqs rl).1 = repeat true (length reqs).
Proof.
  intros Hb Hs Hh HN Hg Hmin Htd Hsp.
  apply (admissions_spaced ip gap N); try assumption. now rewrite Hh.
Qed.

(** ** Settings at the edge *)

(** With a tracking duration of zero or less, other than the smallest 64-bit
    value, the cutoff is not before the request's own instant, which so falls
    out of its own window: an address that starts with an empty history keeps
    it empty and, the limit not being negative, is let in every time, at
    whatever rate it asks. *)
Theorem no_window_no_limit ip reqs : forall rl,
  - 2 ^ 63 < trackingDuration cfg ->
  trackingDuration cfg <= 0 ->
  0 <= rateLimit cfg ->
  blackListed rl ip = false ->
  brownList rl !! ip = None ->
  history rl ip = [] ->
  (admissions cfg ip reqs rl).1 = repeat true (length reqs)
  /\ history (admissions cfg ip reqs rl).2 ip = [].
Proof.
  induction reqs as [|[[sid t0] now] reqs IH]; intros rl Hmin Htd Hrl Hb Hs Hh;
    [now split|].
  assert (Hw : window cfg now (history rl ip) = []).
  { rewrite Hh. unfold window, prune. rewrite cutoff_minus by assumption. cbn.
    now rewrite (proj2 (Z.ltb_ge _ _)) by lia. }
  assert (Ho : overLimit cfg (window cfg now (history rl ip)) = false).
  { rewrite Hw. unfold overLimit. cbn. apply Z.ltb_ge. lia. }
  cbn [admissions].
  rewrite (admission_admit cfg sid t0 now ip rl Hb (or_introl Hs) Ho).
  destruct (IH (admitted cfg now ip rl) Hmin Htd Hrl Hb Hs) as [IH1 IH2].
  { now rewrite history_admitted. }
  destruct (admissions cfg ip reqs (admitted cfg now ip rl)) as [oks rl2].
  cbn in *. now rewrite IH1.
Qed.

Lemma window_nonempty now h :
  0 < trackingDuration cfg -> (1 <= length (window cfg now h))%nat.
Proof.
  intros Htd. unfold window. rewrite prune_app, length_app.
  rewrite cutoff_minus by lia.
  unfold prune at 2. cbn. rewrite (proj2 (Z.ltb_lt _ _)) by lia. cbn. lia.
Qed.

(** With a limit of zero or less and a positive tracking duration, the
    request's own instant is already one too many: the first request of an
    address without session header blacklists it, and with a session header
    puts it on the brown list. *)
Theorem zero_limit_blocks_all ip now t0 rl :
  rateLimit cfg <= 0 ->
  0 < trackingDuration cfg ->
  blackListed rl ip = false ->
  held rl ip t0 = false ->
  (limitCheck cfg now ip rl).1.1 = false
  /\ blackListed (limitCheck cfg now ip rl).1.2 ip = true
  /\ (sessionCheck cfg t0 now ip rl).1.1 = false
  /\ brownList (sessionCheck cfg t0 now ip rl).1.2 !! ip
     = Some (now + brownListedDuration cfg).
Proof.
  intros Hrl Htd Hb Hh.
  assert (Ho : overLimit cfg (window cfg now (history rl ip)) = true).
  { unfold overLimit. apply Z.ltb_lt.
    pose proof (window_nonempty now (history rl ip) Htd). lia. }
  rewrite (limitCheck_block cfg now ip rl Hb Ho). cbn [fst snd].
  split; [reflexivity|]. split.
  { unfold blackListed. cbn. now rewrite lookup_insert_eq. }
  assert (Hfree : forall e, brownList rl !! ip = Some e -> e <= t0).
  { intros e He. unfold held in Hh. rewrite He in Hh. now apply Z.ltb_ge. }
  destruct (sessionCheck_trigger cfg t0 now ip rl Hfree Ho) as (rl1 & E & Hb1 & _).
  now rewrite E.
Qed.

(** ** A check whose send is received *)

(** When a receiver is waiting on the channels and the mutex is free, a check
    runs through all its events without ever having to wait, and leaves the
    mutex free. *)
Theorem check_completes_with_receiver sessionID t0 now ip rl :
  exists σ,
    runSched (fun _ => true)
      {| holder := None; threads := [(admission cfg sessionID t0 now ip rl).2] |}
      (repeat 0%nat (length (admission cfg sessionID t0 now ip rl).2)) = Some σ
    /\ holder σ = None
    /\ threads σ !! 0%nat = Some [].
Proof.
  unfold admission. case_bool_decide.
  - rewrite (proj2 (sessionCheck_verdict t0 now ip rl)).
    destruct (_ && _); cbn; eexists; (split; [reflexivity|]); now cbn.
  - rewrite (proj2 (limitCheck_verdict now ip rl)).
    destruct (_ && _); cbn; eexists; (split; [reflexivity|]); now cbn.
Qed.

End LimiterCoverage.

(** ** Instances under the defaults and at the edge *)

Section LimiterCoverageScenarios.
Import Limiter Sched Gateway.

(** [busy] is swept at second 22 and [clientA] asks again at second 23: the
    answer is the one it would get without the sweep. *)
Lemma cleanUp_transparent_busy :
  (admission defaults "" (23 * second) (23 * second) clientA
     (cleanUp defaults (fun _ => 22 * second) busy).1).1.1
  = (admission defaults "" (23 * second) (23 * second) clientA busy).1.1.
Proof.
  assert (Hle : (fun _ : string => 22 * second) clientA <= 23 * second)
    by (vm_compute; discriminate).
  exact (proj1 (proj2 (cleanUp_transparent defaults (fun _ => 22 * second) ""
                         (23 * second) (23 * second) clientA busy Hle))).
Defined.

(** Requests of [clientB], with and without session header, and a timer
    leave the history of [clientA] in [busy] as it was. *)
Lemma addresses_are_independent_busy :
  history
    (run defaults
       [OpLimit clientB (5 * second); OpSession clientB (6 * second) (6 * second);
        OpTimer clientB unblockCh (25 * second)] busy) clientA
  = history busy clientA.
Proof.
  exact (proj1 (addresses_are_independent defaults clientA
                  [OpLimit clientB (5 * second);
                   OpSession clientB (6 * second) (6 * second);
                   OpTimer clientB unblockCh (25 * second)] busy eq_refl)).
Defined.

(** [clientA] is on the blacklist of [listed]; half a minute later, with a
    session header, it is let in. *)
Lemma block_lists_do_not_cross_listed :
  blackListed listed clientA = true
  /\ (sessionCheck defaults (34 * second) (34 * second) clientA listed).1.1 = true.
Proof.
  split; [reflexivity|].
  exact (proj1 (proj2 (proj2 (block_lists_do_not_cross defaults clientA listed
                                (34 * second) (34 * second))))
           eq_refl eq_refl eq_refl).
Defined.

(** Three plain requests of [clientA] on [busy], a sweep and a request of
    [clientB]: [clientA] is sent on the block channel once. *)
Lemma one_block_signal_busy :
  Nat.le
    (blockSends clientA
       (trace defaults
          [OpLimit clientA (4 * second); OpCleanUp (fun _ => 5 * second);
           OpLimit clientA (6 * second); OpLimit clientB (6 * second);
           OpLimit clientA (70 * second)] busy)) 1%nat.
Proof.
  exact (proj1 (one_block_signal defaults clientA
                  [OpLimit clientA (4 * second); OpCleanUp (fun _ => 5 * second);
                   OpLimit clientA (6 * second); OpLimit clientB (6 * second);
                   OpLimit clientA (70 * second)] busy eq_refl)).
Defined.

(** [clientA] sends its twenty-first request with a session header, asks
    again while it is held and again after the expiry, four requests at once:
    as many block signals as timers. *)
Lemma timers_match_block_signals_busy :
  blockSends clientA
    (trace defaults
       [OpSession clientA (4 * second) (4 * second);
        OpSession clientA (5 * second) (5 * second);
        OpSession clientA (30 * second) (30 * second);
        OpTimer clientA unblockCh (25 * second)] busy)
  = timerStarts defaults clientA
      (trace defaults
         [OpSession clientA (4 * second) (4 * second);
          OpSession clientA (5 * second) (5 * second);
          OpSession clientA (30 * second) (30 * second);
          OpTimer clientA unblockCh (25 * second)] busy).
Proof.
  exact (timers_match_block_signals defaults clientA
           [OpSession clientA (4 * second) (4 * second);
            OpSession clientA (5 * second) (5 * second);
            OpSession clientA (30 * second) (30 * second);
            OpTimer clientA unblockCh (25 * second)] busy eq_refl).
Defined.

(** Sixty requests one second apart, a third of them with a session header:
    under the defaults (20 requests in 20 seconds) all are let in. *)
Lemma steady_client_admitted_defaults :
  (admissions defaults clientA steady newRateLimiter).1 = repeat true 60.
Proof.
  refine (steady_client_admitted defaults clientA second 20 steady newRateLimiter
            _ _ _ _ _ _ _ _); vm_compute; first [reflexivity | discriminate].
Defined.

(** A tracking duration of zero: twenty-one requests in the same instant are
    all let in. *)
Lemma no_window_no_limit_zero :
  (admissions {| rateLimit := 20; trackingDuration := 0; brownListedDuration := 25 * second |}
     clientA (map plain (repeat 7 21)) newRateLimiter).1 = repeat true 21.
Proof.
  refine (proj1 (no_window_no_limit
                   {| rateLimit := 20; trackingDuration := 0;
                      brownListedDuration := 25 * second |}
                   clientA (map plain (repeat 7 21)) newRateLimiter _ _ _ _ _ _));
    vm_compute; first [reflexivity | discriminate].
Defined.

(** The lower bound on [trackingDuration] asked above cannot be dropped.  The
    smallest duration is its own negation in 64 bits, so with it the cutoff
    lies [2 ^ 63] nanoseconds before the request instead of after it: nothing
    recent is pruned, and of 21 requests at one instant the 21st is refused,
    where one nanosecond more admits them all. *)
Example smallest_duration_keeps_all :
  negDuration (- 2 ^ 63) = - 2 ^ 63
  /\ (admissions {| rateLimit := 20; trackingDuration := - 2 ^ 63;
                    brownListedDuration := 25 * second |}
                 clientA (map plain (repeat 7 21)) newRateLimiter).1
     = repeat true 20 ++ [false]
  /\ (admissions {| rateLimit := 20; trackingDuration := - 2 ^ 63 + 1;
                    brownListedDuration := 25 * second |}
                 clientA (map plain (repeat 7 21)) newRateLimiter).1
     = repeat true 21.
Proof. repeat split; vm_compute; reflexivity. Qed.

(** A limit of zero: the first request of [clientA] blacklists it. *)
Lemma zero_limit_blocks_all_first :
  (limitCheck {| rateLimit := 0; trackingDuration := 20 * second;
                 brownListedDuration := 25 * second |}
     (1 * second) clientA newRateLimiter).1.1 = false.
Proof.
  refine (proj1 (zero_limit_blocks_all
                   {| rateLimit := 0; trackingDuration := 20 * second;
                      brownListedDuration := 25 * second |}
                   clientA (1 * second) (1 * second) newRateLimiter _ _ _ _));
    vm_compute; first [reflexivity | discriminate].
Defined.

End LimiterCoverageScenarios.

(** * Further properties of the load balancer *)

Section PoolCoverage.
Import LoadB Gateway.
Context {S : Type} `{Server S}.

(** ** Round robin over backends that are all alive *)

Lemma setCount_setCount lb a b : setCount (setCount lb a) b = setCount lb b.
Proof. reflexivity. Qed.

Lemma setCount_same lb : setCount lb (RoundRobinCount lb) = lb.
Proof. now destruct lb. Qed.

Lemma GetNextAvailableServer_alive fuel heap lb :
  Servers lb <> [] ->
  0 <= RoundRobinCount lb -> RoundRobinCount lb + 1 < 2 ^ 63 ->
  (forall p, In p (Servers lb) -> aliveb heap p = true) ->
  exists p,
    Servers lb !! Z.to_nat (RoundRobinCount lb mod Z.of_nat (length (Servers lb)))
      = Some p
    /\ GetNextAvailableServer fuel heap lb
       = Ret (setCount lb (RoundRobinCount lb + 1), p).
Proof.
  intros Hne Hlo Hhi Hal.
  destruct (serverAt_total (Servers lb) (RoundRobinCount lb) Hne Hlo) as (p & Hp & Hi).
  exists p. split; [assumption|]. unfold GetNextAvailableServer. rewrite Hp. cbn.
  rewrite probe_alive by (apply Hal; eapply serverAt_In; exact Hp).
  cbn. now rewrite wrap64_small by lia.
Qed.

(** In a pool whose backends are all alive, [k] calls of
    [GetNextAvailableServer] in a row return the backends in the order of the
    list, starting at the cursor and going round: the call number [j] returns
    the backend at place [(cursor + j) mod len].  None of them needs an
    iteration of the loop, and the cursor ends [k] further. *)
Theorem round_robin_cycles fuel heap (k : nat) : forall lb,
  Servers lb <> [] ->
  0 <= RoundRobinCount lb ->
  RoundRobinCount lb + Z.of_nat k < 2 ^ 63 ->
  (forall p, In p (Servers lb) -> aliveb heap p = true) ->
  exists targets,
    nextN fuel k heap lb = Ret (setCount lb (RoundRobinCount lb + Z.of_nat k), targets)
    /\ length targets = k
    /\ forall j : nat, (j < k)%nat ->
         targets !! j
         = Servers lb !! Z.to_nat ((RoundRobinCount lb + Z.of_nat j)
                                     mod Z.of_nat (length (Servers lb))).
Proof.
  induction k as [|k IH]; intros lb Hne Hlo Hhi Hal.
  - exists []. cbn. rewrite Z.add_0_r, setCount_same.
    split; [reflexivity|]. split; [reflexivity|]. intros j Hj. lia.
  - destruct (GetNextAvailableServer_alive fuel heap lb Hne Hlo ltac:(lia) Hal)
      as (p & Hp & E).
    destruct (IH (setCount lb (RoundRobinCount lb + 1))) as (ps & E2 & Hlen & Hps);
      cbn [setCount Servers RoundRobinCount]; try assumption; try lia.
    cbn [setCount Servers RoundRobinCount] in *.
    exists (p :: ps). cbn [nextN]. rewrite E. cbn [bind]. rewrite E2. cbn [bind].
    split; [|split].
    + rewrite setCount_setCount. do 2 f_equal. f_equal. lia.
    + cbn. now rewrite Hlen.
    + intros [|j] Hj.
      * cbn [lookup list_lookup]. rewrite Z.add_0_r. now rewrite Hp.
      * cbn [lookup list_lookup]. change (ps !! j = Servers lb !!
          Z.to_nat ((RoundRobinCount lb + Z.of_nat (Datatypes.S j))
                      mod Z.of_nat (length (Servers lb)))).
        rewrite (Hps j ltac:(lia)). do 3 f_equal. lia.
Qed.

(** ** Pools that have no target to give *)

(** In a pool without backends, round-robin selection panics (the cursor is
    taken modulo a length of zero), least-connections selection returns
    [nil], and [ServeProxy] panics for every request whose session token is
    not already bound, whatever the algorithm. *)
Theorem empty_pool_panics fuel heap lb :
  Servers lb = [] ->
  GetNextAvailableServer fuel heap lb = Panic
  /\ GetLeastConnServer heap lb = Ret None
  /\ forall sessionID,
       SessionTable lb !! sessionID = None \/ sessionID = "" ->
       ServeProxy fuel sessionID heap lb = Panic.
Proof.
  intros He.
  assert (E1 : GetNextAvailableServer fuel heap lb = Panic)
    by (unfold GetNextAvailableServer; now rewrite He).
  assert (E2 : GetLeastConnServer heap lb = Ret None)
    by (unfold GetLeastConnServer; now rewrite He).
  split; [assumption|]. split; [assumption|].
  intros sessionID Hs. unfold ServeProxy, pickTarget. rewrite E1, E2.
  case_bool_decide as Hid.
  - destruct Hs as [->|Hs]; [reflexivity|contradiction].
  - repeat case_bool_decide; reflexivity.
Qed.

(** A pool whose [Algorithm] is neither ["lc"] nor ["rr"] has no target for
    a request without session header: [ServeProxy] calls a method on [nil]
    and panics, whatever the backends.  The spellings of the comment on the
    field, ["roundrobin"] and ["leastconn"], are such values. *)
Theorem unknown_algorithm_panics fuel heap lb :
  Algorithm lb <> "lc" -> Algorithm lb <> "rr" ->
  ServeProxy fuel "" heap lb = Panic.
Proof.
  intros H1 H2. unfold ServeProxy, pickTarget.
  rewrite bool_decide_eq_false_2 by (intros Hne; now apply Hne).
  now rewrite !bool_decide_eq_false_2 by assumption.
Qed.

(** ** What a served request changes *)

Lemma pickTarget_frame fuel sessionID heap lb lb' target :
  pickTarget fuel sessionID heap lb = Ret (lb', target) ->
  Servers lb' = Servers lb /\ Port lb' = Port lb /\ Algorithm lb' = Algorithm lb.
Proof.
  assert (Hnext : forall lb1 p, GetNextAvailableServer fuel heap lb = Ret (lb1, p) ->
                    exists c, lb1 = setCount lb c).
  { unfold GetNextAvailableServer. intros lb1 p.
    destruct (serverAt _ _) as [q| |]; cbn; try discriminate.
    destruct (probe _ _ _ _ _) as [[c q']| |]; cbn; try discriminate.
    intros [= <- <-]. eauto. }
  unfold pickTarget. case_bool_decide as Hid.
  - destruct (SessionTable lb !! sessionID) as [p|].
    + intros [= <- <-]. auto.
    + destruct (GetNextAvailableServer fuel heap lb) as [[lb1 p]| |] eqn:E; cbn;
        try discriminate.
      intros [= <- <-]. destruct (Hnext lb1 p eq_refl) as [c ->]. auto.
  - case_bool_decide.
    + destruct (GetLeastConnServer heap lb); cbn; try discriminate.
      intros [= <- <-]. auto.
    + case_bool_decide.
      * destruct (GetNextAvailableServer fuel heap lb) as [[lb1 p]| |] eqn:E; cbn;
          try discriminate.
        intros [= <- <-]. destruct (Hnext lb1 p eq_refl) as [c ->]. auto.
      * intros [= <- <-]. auto.
Qed.

(** A call of [ServeProxy] that returns has changed one object only, its
    target, which is now what [IncActiveConn] and then [Serve] made of it: the
    other backends are as they were, no backend is added to or taken from the
    heap, and the list of backends, the port and the algorithm of the pool are
    unchanged. *)
Theorem ServeProxy_touches_only_target fuel sessionID heap lb lb' heap' p calls :
  ServeProxy fuel sessionID heap lb = Ret (lb', heap', p, calls) ->
  (exists s, heap !! p = Some s /\ heap' = <[p := Serve (IncActiveConn s)]> heap)
  /\ length heap' = length heap
  /\ (forall q, q <> p -> heap' !! q = heap !! q)
  /\ Servers lb' = Servers lb /\ Port lb' = Port lb /\ Algorithm lb' = Algorithm lb.
Proof.
  unfold ServeProxy.
  destruct (pickTarget fuel sessionID heap lb) as [[lb1 [q|]]| |] eqn:E; cbn;
    try discriminate.
  unfold deref at 1. destruct (heap !! q) as [s|] eqn:Hs; cbn; [|discriminate].
  unfold deref. rewrite list_lookup_insert_eq by (eapply lookup_lt_Some; exact Hs).
  cbn. intros [= <- <- <- <-]. rewrite list_insert_insert_eq.
  split; [eauto|]. split; [apply length_insert|].
  split; [intros q' Hq'; now apply list_lookup_insert_ne|].
  destruct (pickTarget_frame _ _ _ _ _ _ E) as (? & ? & ?). auto.
Qed.

(** ** The session table only grows *)

Lemma pickTarget_grows fuel sessionID heap lb lb' target :
  pickTarget fuel sessionID heap lb = Ret (lb', target) ->
  SessionTable lb ⊆ SessionTable lb'
  /\ forall T, SessionTable lb !! T = None -> is_Some (SessionTable lb' !! T) ->
       T = sessionID /\ sessionID <> "".
Proof.
  unfold pickTarget. case_bool_decide as Hid.
  - destruct (SessionTable lb !! sessionID) as [p|] eqn:Hp.
    + intros [= <- <-]. split; [reflexivity|]. intros T HT [x Hx]. congruence.
    + destruct (GetNextAvailableServer fuel heap lb) as [[lb1 p]| |] eqn:E; cbn;
        try discriminate.
      intros [= <- <-]. apply GetNextAvailableServer_table in E as (E & _).
      cbn. rewrite E. split; [now apply insert_subseteq|].
      intros T HT [x Hx]. destruct (decide (sessionID = T)) as [->|Hne]; [auto|].
      rewrite lookup_insert_ne in Hx by assumption. congruence.
  - case_bool_decide.
    + destruct (GetLeastConnServer heap lb); cbn; try discriminate.
      intros [= <- <-]. split; [reflexivity|]. intros T HT [x Hx]. congruence.
    + case_bool_decide.
      * destruct (GetNextAvailableServer fuel heap lb) as [[lb1 p]| |] eqn:E; cbn;
          try discriminate.
        intros [= <- <-]. apply GetNextAvailableServer_table in E as (E & _).
        rewrite E. split; [reflexivity|]. intros T HT [x Hx]. congruence.
      * intros [= <- <-]. split; [reflexivity|]. intros T HT [x Hx]. congruence.
Qed.

(** Through any requests that are served, the session table only grows: a
    binding is never removed and never changed, a token that gets bound was
    the non-empty header of one of the requests, and each request got a
    target. *)
Theorem session_table_only_grows fuel : forall sessionIDs heap lb lb' heap' targets,
  serveAll fuel sessionIDs heap lb = Ret (lb', heap', targets) ->
  SessionTable lb ⊆ SessionTable lb'
  /\ (forall T, SessionTable lb !! T = None -> is_Some (SessionTable lb' !! T) ->
        In T sessionIDs /\ T <> "")
  /\ length targets = length sessionIDs.
Proof.
  induction sessionIDs as [|sid rest IH]; intros heap lb lb' heap' targets; cbn.
  - intros [= <- <- <-]. split; [reflexivity|]. split; [|reflexivity].
    intros T HT [x Hx]. congruence.
  - destruct (ServeProxy fuel sid heap lb) as [[[[lb1 heap1] p] calls]| |] eqn:E; cbn;
      try discriminate.
    destruct (serveAll fuel rest heap1 lb1) as [[[lb2 heap2] ps]| |] eqn:E2; cbn;
      try discriminate.
    intros [= <- <- <-].
    apply ServeProxy_target in E as (E & _).
    destruct (pickTarget_grows _ _ _ _ _ _ E) as (Hsub1 & Hnew1).
    destruct (IH _ _ _ _ _ E2) as (Hsub2 & Hnew2 & Hlen).
    split; [now transitivity (SessionTable lb1)|]. split; [|cbn; now rewrite Hlen].
    intros T HT Hsome.
    destruct (SessionTable lb1 !! T) as [x|] eqn:H1.
    + destruct (Hnew1 T HT ltac:(eauto)) as [-> Hne]. split; [now left|assumption].
    + destruct (Hnew2 T H1 Hsome) as [Hin Hne]. split; [now right|assumption].
Qed.

End PoolCoverage.

(** ** [SimpleServer] *)

Section SimpleServerFacts.
Import LoadB Gateway.

Lemma wrap64_range z : - 2 ^ 63 <= wrap64 z < 2 ^ 63.
Proof.
  unfold wrap64. pose proof (Z.mod_pos_bound (z + 2 ^ 63) (2 ^ 64)). lia.
Qed.

Lemma wrap64_add_l a b : wrap64 (wrap64 a + b) = wrap64 (a + b).
Proof.
  unfold wrap64. f_equal.
  replace ((a + 2 ^ 63) mod 2 ^ 64 - 2 ^ 63 + b + 2 ^ 63)
    with ((a + 2 ^ 63) mod 2 ^ 64 + b) by lia.
  rewrite Zplus_mod_idemp_l. f_equal. lia.
Qed.

(** The counter of a [SimpleServer] is a machine integer.  [DecActiveConn]
    undoes [IncActiveConn] and the other way round, also across the
    wrap-around; the address is not touched; below the largest value
    [IncActiveConn] adds one, and at the largest value it gives the smallest,
    a negative count. *)
Theorem counter_round_trip (s : SimpleServer) :
  - 2 ^ 63 <= activeConn s < 2 ^ 63 ->
  DecActiveConn (IncActiveConn s) = s
  /\ IncActiveConn (DecActiveConn s) = s
  /\ Address (IncActiveConn s) = Address s
  /\ - 2 ^ 63 <= ActiveConn (IncActiveConn s) < 2 ^ 63
  /\ (activeConn s < 2 ^ 63 - 1 -> ActiveConn (IncActiveConn s) = activeConn s + 1)
  /\ (activeConn s = 2 ^ 63 - 1 -> ActiveConn (IncActiveConn s) = - 2 ^ 63).
Proof.
  intros Hr. destruct s as [a c].
  cbn [DecActiveConn IncActiveConn Address ActiveConn SimpleServer_Server
       addr activeConn] in *.
  split; [|split; [|split; [|split; [|split]]]].
  - f_equal. replace (wrap64 (c + 1) - 1) with (wrap64 (c + 1) + -1) by lia.
    rewrite wrap64_add_l. replace (c + 1 + -1) with c by lia.
    now apply wrap64_small.
  - f_equal. replace (c - 1) with (c + -1) by lia.
    rewrite wrap64_add_l. replace (c + -1 + 1) with c by lia.
    now apply wrap64_small.
  - reflexivity.
  - apply wrap64_range.
  - intros Hc. apply wrap64_small. lia.
  - intros ->. reflexivity.
Qed.

(** ** Least connections without decrement *)

Lemma balancedb_spec (heap : list SimpleServer) servers :
  balancedb heap servers = true
  <-> forall a b, In a servers -> In b servers -> conn heap a <= conn heap b + 1.
Proof.
  unfold balancedb. rewrite forallb_forall. split.
  - intros Hb a b Ha Hin. specialize (Hb a Ha). rewrite forallb_forall in Hb.
    specialize (Hb b Hin). lia.
  - intros Hb a Ha. rewrite forallb_forall. intros b Hin.
    specialize (Hb a b Ha Hin). lia.
Qed.

(** One request without session header under least connections, in a pool
    of allocated [SimpleServer]s whose counters are not at the largest value:
    it is given to a backend with the fewest connections, whose counter goes
    up by one. *)
Lemma least_conn_step fuel (heap : list SimpleServer) lb :
  Algorithm lb = "lc" -> Servers lb <> [] ->
  Forall (fun p => is_Some (heap !! p)) (Servers lb) ->
  (forall p, In p (Servers lb) -> - 2 ^ 63 <= conn heap p /\ conn heap p + 1 < 2 ^ 63) ->
  exists heap' p,
    ServeProxy fuel "" heap lb
      = Ret (lb, heap', p, [CallInc p; CallAddress p; CallServe p])
    /\ In p (Servers lb)
    /\ (forall q, In q (Servers lb) -> conn heap p <= conn heap q)
    /\ conn heap' p = conn heap p + 1
    /\ (forall q, q <> p -> conn heap' q = conn heap q)
    /\ Forall (fun q => is_Some (heap' !! q)) (Servers lb).
Proof.
  intros Halg Hne Hwf Hr.
  assert (Halive : forall q, In q (Servers lb) -> aliveb heap q = true).
  { intros q Hq. rewrite List.Forall_forall in Hwf. destruct (Hwf q Hq) as [s Hs].
    unfold aliveb. now rewrite Hs. }
  destruct (leastConn_spec heap (Servers lb) None Hwf) as (r & Er & Hres);
    [intros q [=]|].
  destruct r as [p|].
  2:{ destruct Hres as [_ Hd]. destruct (Servers lb) as [|q0 rest]; [contradiction|].
      specialize (Hd q0 (or_introl eq_refl)).
      rewrite (Halive q0 (or_introl eq_refl)) in Hd. discriminate. }
  destruct Hres as (Hp & _ & Hmin & [[=]|(i & Hi & _)]).
  assert (Hin : In p (Servers lb))
    by (apply list_elem_of_In; eapply list_elem_of_lookup_2; exact Hi).
  rewrite List.Forall_forall in Hwf. destruct (Hwf p Hin) as [s Hs].
  destruct (Hr p Hin) as [Hlo Hhi].
  assert (Hc : conn heap p = activeConn s) by (unfold conn; now rewrite Hs).
  exists (<[p := IncActiveConn s]> heap), p.
  split; [|split; [assumption|split; [|split; [|split]]]].
  - unfold ServeProxy, pickTarget.
    rewrite bool_decide_eq_false_2 by (intros Hq; now apply Hq).
    rewrite bool_decide_eq_true_2 by assumption.
    unfold GetLeastConnServer. rewrite Er. cbn.
    unfold deref. rewrite Hs. cbn.
    rewrite list_lookup_insert_eq by (eapply lookup_lt_Some; exact Hs). cbn.
    now rewrite list_insert_insert_eq.
  - intros q Hq. apply Hmin; [assumption|now apply Halive].
  - unfold conn at 1.
    rewrite list_lookup_insert_eq by (eapply lookup_lt_Some; exact Hs). cbn.
    rewrite wrap64_small; lia.
  - intros q Hq. unfold conn. now rewrite list_lookup_insert_ne by congruence.
  - apply List.Forall_forall. intros q Hq. destruct (Hwf q Hq) as [sq Hsq].
    destruct (decide (q = p)) as [->|Hqp].
    + rewrite list_lookup_insert_eq by (eapply lookup_lt_Some; exact Hs). eauto.
    + rewrite list_lookup_insert_ne by congruence. eauto.
Qed.

(** [DecActiveConn] being called nowhere, the counters count the requests
    given to each backend, and least connections shares them out evenly:
    when no backend of the pool has more than one connection more than
    another, this is still so after any number of requests without session
    header, each of which went to a backend of the pool. *)
Theorem least_conn_stays_balanced fuel (k : nat) : forall (heap : list SimpleServer) lb,
  Algorithm lb = "lc" ->
  Servers lb <> [] ->
  Forall (fun p => is_Some (heap !! p)) (Servers lb) ->
  (forall p, In p (Servers lb) ->
     - 2 ^ 63 <= conn heap p /\ conn heap p + Z.of_nat k < 2 ^ 63) ->
  balancedb heap (Servers lb) = true ->
  exists heap' targets,
    serveAll fuel (repeat "" k) heap lb = Ret (lb, heap', targets)
    /\ length targets = k
    /\ Forall (fun p => In p (Servers lb)) targets
    /\ balancedb heap' (Servers lb) = true.
Proof.
  induction k as [|k IH]; intros heap lb Halg Hne Hwf Hr Hb.
  - exists heap, []. cbn. auto.
  - destruct (least_conn_step fuel heap lb Halg Hne Hwf) as
      (heap1 & p & E & Hin & Hmin & Hp & Hothers & Hwf1).
    { intros q Hq. specialize (Hr q Hq). lia. }
    assert (Hconn : forall q, In q (Servers lb) ->
                      conn heap q <= conn heap1 q <= conn heap q + 1).
    { intros q Hq. destruct (decide (q = p)) as [->|Hqp]; [lia|].
      rewrite (Hothers q Hqp). lia. }
    destruct (IH heap1 lb Halg Hne Hwf1) as (heap2 & ps & E2 & Hlen & Hps & Hb2).
    { intros q Hq. specialize (Hr q Hq). specialize (Hconn q Hq). lia. }
    { apply balancedb_spec. intros a b Ha Hbn.
      rewrite balancedb_spec in Hb. pose proof (Hb a b Ha Hbn) as Hab.
      destruct (decide (a = p)) as [->|Hap]; destruct (decide (b = p)) as [->|Hbp];
        rewrite ?Hp, ?(Hothers a), ?(Hothers b) by assumption; try lia.
      specialize (Hmin b Hbn). lia. }
    exists heap2, (p :: ps). cbn [repeat serveAll]. rewrite E. cbn [bind].
    rewrite E2. cbn [bind]. split; [reflexivity|]. split; [cbn; now rewrite Hlen|].
    split; [now constructor|assumption].
Qed.

End SimpleServerFacts.

(** * The request handler *)

Section HandlerFacts.
Import Stdlib.Strings.Ascii.
Import Limiter LoadB Sched Gateway.

Lemma clientIP_prefix h rest :
  hasColon h = false -> clientIP (String.append h (String ":"%char rest)) = h.
Proof.
  induction h as [|c h IH]; [reflexivity|].
  intros Hh. cbn [hasColon] in Hh. apply orb_false_iff in Hh as [Hc Hh].
  change (clientIP (String c (String.append h (String ":"%char rest))) = String c h).
  cbn [clientIP]. rewrite Hc. f_equal. now apply IH.
Qed.

(** The key under which the handler files a request is what stands before
    the first colon of [RemoteAddr]: for an address [h:rest] with no colon in
    [h] it is [h], so that all the ports of a host share one record, and a
    bracketed IPv6 address is cut at the first colon inside the brackets.  The
    key never holds a colon, and an address without colon is its own key. *)
Theorem clientIP_is_before_first_colon :
  (forall h rest, hasColon h = false ->
     clientIP (String.append h (String ":"%char rest)) = h)
  /\ (forall s, hasColon (clientIP s) = false)
  /\ (forall s, hasColon s = false -> clientIP s = s)
  /\ (forall s, exists rest, s = String.append (clientIP s) rest).
Proof.
  split; [exact clientIP_prefix|]. split; [|split].
  - induction s as [|c s IH]; cbn; [reflexivity|].
    destruct (Ascii.eqb c ":"%char) eqn:E; cbn; [reflexivity|]. now rewrite E.
  - induction s as [|c s IH]; cbn; [reflexivity|].
    destruct (Ascii.eqb c ":"%char); cbn; [discriminate|].
    intros Hs. now rewrite IH.
  - induction s as [|c s IH]; cbn; [now exists EmptyString|].
    destruct (Ascii.eqb c ":"%char); cbn; [now exists (String c s)|].
    destruct IH as [rest Hr]. exists rest.
    change (String c s = String c (String.append (clientIP s) rest)). now f_equal.
Qed.

Example clientIP_ipv4 : clientIP "10.0.0.1:50001" = "10.0.0.1".
Proof. reflexivity. Qed.

Example clientIP_ipv6 : clientIP "[2001:db8::1]:50001" = "[2001".
Proof. reflexivity. Qed.

Section AnyBackend.
Context {S : Type} `{Server S}.

(** Requests without session header from an address on the blacklist are
    all answered 429 and never reach [ServeProxy]: the rate limiter, the pool
    and every backend are left as they were, whatever the state of the pool,
    be it empty or with every backend down. *)
Theorem blocked_client_never_reaches_pool (cfg : Config) fuel ip reqs :
  forall rl (heap : list S) lb,
  blackListed rl ip = true ->
  forallb (plainFrom ip) reqs = true ->
  handleAll cfg fuel reqs rl heap lb
    = (rl, Ret (repeat (TooManyRequests "Rate limit exceeded") (length reqs), lb, heap)).
Proof.
  induction reqs as [|[[[remoteAddr sid] t0] now] reqs IH]; intros rl heap lb Hb Hf;
    [reflexivity|].
  cbn [forallb] in Hf. apply andb_true_iff in Hf as [Hr Hf].
  unfold plainFrom in Hr. cbn [fst snd] in Hr.
  apply andb_true_iff in Hr as [Hip Hsid].
  apply bool_decide_eq_true in Hip. apply bool_decide_eq_true in Hsid. subst sid.
  cbn [handleAll]. unfold handleRedirect.
  rewrite bool_decide_eq_false_2 by (intros Hne; now apply Hne).
  rewrite Hip, (limitCheck_listed cfg now ip rl Hb). cbn [negb].
  now rewrite (IH rl heap lb Hb Hf).
Qed.

End AnyBackend.

End HandlerFacts.

(** ** Instances for the pool and the handler *)

Section CoverageScenarios.
Import Limiter LoadB Sched Gateway.

(** Seven calls on the pool [A, B, C]: A, B, C, A, B, C, A. *)
Lemma round_robin_cycles_abc :
  exists targets,
    nextN 0 7 abcHeap abcPool = Ret (setCount abcPool 7, targets)
    /\ targets = [0; 1; 2; 0; 1; 2; 0]%nat.
Proof.
  assert (Hal : forall p, In p (Servers abcPool) -> aliveb abcHeap p = true)
    by (intros p [<-|[<-|[<-|[]]]]; reflexivity).
  destruct (round_robin_cycles 0 abcHeap 7 abcPool ltac:(discriminate)
              ltac:(vm_compute; discriminate) ltac:(vm_compute; reflexivity) Hal)
    as (targets & E & _).
  exists targets. split; [exact E|]. vm_compute in E. congruence.
Defined.

Lemma empty_pool_panics_abc : ServeProxy 0 "" abcHeap emptyPool = Panic.
Proof.
  exact (proj2 (proj2 (empty_pool_panics 0 abcHeap emptyPool eq_refl))
           "" (or_intror eq_refl)).
Defined.

Lemma unknown_algorithm_panics_spelled : ServeProxy 0 "" oneHeap spelledPool = Panic.
Proof.
  exact (unknown_algorithm_panics 0 oneHeap spelledPool
           ltac:(discriminate) ltac:(discriminate)).
Defined.

(** A request without session header on [A, B, C] with counts 2, 0, 1 goes to
    B; C is as it was. *)
Lemma ServeProxy_touches_only_target_abc :
  [{| addr := "http://a"; activeConn := 2 |};
   {| addr := "http://b"; activeConn := 1 |};
   {| addr := "http://c"; activeConn := 1 |}] !! 2%nat = abcHeap !! 2%nat.
Proof.
  exact (proj1 (proj2 (proj2 (ServeProxy_touches_only_target 0 "" abcHeap abcPool abcPool
                                [{| addr := "http://a"; activeConn := 2 |};
                                 {| addr := "http://b"; activeConn := 1 |};
                                 {| addr := "http://c"; activeConn := 1 |}]
                                1%nat
                                [CallInc 1%nat; CallAddress 1%nat; CallServe 1%nat]
                                eq_refl)))
           2%nat ltac:(discriminate)).
Defined.

(** Three requests on [boundPool], two of them with a new token: the binding
    of [s1] is still there afterwards. *)
Lemma session_table_only_grows_bound :
  exists lb' heap' targets,
    serveAll 0 ["s2"; ""; "s3"] abcHeap boundPool = Ret (lb', heap', targets)
    /\ SessionTable boundPool ⊆ SessionTable lb'.
Proof.
  do 3 eexists. split; [vm_compute; reflexivity|].
  match goal with |- _ ⊆ SessionTable ?lb =>
    exact (proj1 (session_table_only_grows 0 ["s2"; ""; "s3"] abcHeap boundPool
                    lb _ _ eq_refl))
  end.
Defined.

(** At the largest value the counter wraps to the smallest, and
    [DecActiveConn] brings it back. *)
Lemma counter_round_trip_full :
  DecActiveConn (IncActiveConn fullServer) = fullServer
  /\ ActiveConn (IncActiveConn fullServer) = - 2 ^ 63.
Proof.
  assert (Hr : - 2 ^ 63 <= activeConn fullServer < 2 ^ 63)
    by (split; vm_compute; [discriminate|reflexivity]).
  destruct (counter_round_trip fullServer Hr) as (H1 & _ & _ & _ & _ & H2).
  split; [exact H1|]. exact (H2 eq_refl).
Defined.

(** Five requests on [A, B, C] with counts 1, 0, 0: the counts end balanced. *)
Lemma least_conn_stays_balanced_tie :
  exists heap' targets,
    serveAll 0 (repeat "" 5) tieHeap abcPool = Ret (abcPool, heap', targets)
    /\ balancedb heap' (Servers abcPool) = true.
Proof.
  assert (Hwf : Forall (fun p => is_Some (tieHeap !! p)) (Servers abcPool))
    by (repeat constructor; eexists; reflexivity).
  assert (Hr : forall p, In p (Servers abcPool) ->
                 - 2 ^ 63 <= conn tieHeap p /\ conn tieHeap p + Z.of_nat 5 < 2 ^ 63)
    by (intros p [<-|[<-|[<-|[]]]]; split; vm_compute; first [discriminate|reflexivity]).
  destruct (least_conn_stays_balanced 0 5 tieHeap abcPool eq_refl
              ltac:(discriminate) Hwf Hr eq_refl) as (heap' & targets & E & _ & _ & Hb).
  exists heap', targets. split; [exact E|exact Hb].
Defined.

(** [clientA], on the blacklist, sends three plain requests from three ports
    to a pool whose only backend is down: three 429, and the pool is not
    touched. *)
Lemma blocked_client_never_reaches_pool_down :
  handleAll defaults 0 flood listed downHeap downPool
    = (listed, Ret (repeat (TooManyRequests "Rate limit exceeded") 3, downPool, downHeap)).
Proof.
  exact (blocked_client_never_reaches_pool defaults 0 clientA flood listed
           downHeap downPool eq_refl eq_refl).
Defined.

End CoverageScenarios.
